(** * x402-elysia: the request-lifecycle payment state machine

    A shallow embedding of the Elysia plugin built by
    [paymentMiddlewareFromHTTPServer] (src/index.ts) and of the
    [ElysiaAdapter] it uses (src/adapter.ts), with the properties of its
    two lifecycle hooks, [onBeforeHandle] and [onAfterHandle].

    Layout:
    - JavaScript values, [JSON.stringify], [Buffer], [Headers], [Response];
    - the request context and the results of the resource server;
    - [Hook], a small monad of calls to the resource server, with
      exceptions and [try]/[catch];
    - the two hooks, written statement by statement from the source;
    - the interpretation of a hook against a resource server, which
      records every call in a trace; requests served in sequence; requests
      interleaved at their suspension points;
    - the properties: what each hook does case by case, the claims of the
      specification, concurrent requests, the specification's scenarios
      evaluated, and further properties of the adapter and of the
      lifecycle as a whole.

    The resource server, the facilitator and the route handler are not
    part of the plugin: a [Server] says how each of their calls completes,
    and every property holds for all of them. *)

From stdpp Require Import base strings list gmap fin_maps pretty.
From Stdlib Require Import ZArith Lia.
From Stdlib.Strings Require Import Ascii String Byte.

Set Warnings "-register-all".
Open Scope Z_scope.

(** ** JavaScript data *)

(** A [Buffer] is a sequence of bytes.  A JavaScript string is kept as the
    sequence of bytes of its UTF-8 encoding, which is what [Buffer.from(s)]
    and [new Response(s)] write (strings are taken to be well formed: no
    lone surrogate). *)
Abbreviation Buffer := (list byte).

Definition Buffer_from (s : string) : Buffer := String.list_byte_of_string s.

Definition Buffer_alloc (n : nat) : Buffer := replicate n x00.

(** The double quote, which a string literal cannot hold. *)
Definition dquote : ascii := "034"%char.

(** [name.toLowerCase()] on the ASCII letters, as the [Headers] class
    normalises header names. *)
Definition ascii_lower (c : ascii) : ascii :=
  let n := nat_of_ascii c in
  if ((65 <=? n) && (n <=? 90))%nat then ascii_of_nat (n + 32) else c.

Fixpoint toLowerCase (s : string) : string :=
  match s with
  | EmptyString => EmptyString
  | String c rest => String (ascii_lower c) (toLowerCase rest)
  end.

(** [s.includes(sub)]. *)
Fixpoint String_includes (sub s : string) : bool :=
  String.prefix sub s ||
  match s with
  | EmptyString => false
  | String _ rest => String_includes sub rest
  end.

(** The [Headers] class of the Fetch API: a map from lower-cased names to
    values.  [get] and [set] lower-case the name they are given.
    (Validation and trimming of names and values are not modelled: the
    header records that reach [set] here are built by the resource
    server.) *)
Abbreviation Headers := (gmap string string).

Definition Headers_get (h : Headers) (name : string) : option string :=
  h !! toLowerCase name.

Definition Headers_set (name value : string) (h : Headers) : Headers :=
  <[toLowerCase name := value]> h.

(** A [Record<string, string>]: the own properties in the order of
    [Object.entries]. *)
Abbreviation StringRecord := (list (string * string)).

Definition Object_entries (r : StringRecord) : list (string * string) := r.

(** The Fetch [Response].  [resp_bodyUsed] is the flag that reading the
    body sets; a used body can be neither read again nor cloned. *)
Record Response := mkResponse {
  resp_status : Z;
  resp_headers : Headers;
  resp_body : Buffer;
  resp_bodyUsed : bool;
}.

(** The values a route handler can return and the resource server can
    hand over: JSON-like data and [Response] objects.  Numbers are kept to
    the integer-valued ones (status codes are); an object is the list of
    its own properties, with distinct keys, in insertion order.  Values
    are finite trees of plain data: no cycle, no [BigInt], no function, no
    [toJSON] method, so that [JSON.stringify] always returns on them. *)
Inductive JsValue :=
| JsUndefined
| JsNull
| JsBoolean (b : bool)
| JsNumber (n : Z)
| JsString (s : string)
| JsArray (elems : list JsValue)
| JsObject (props : list (string * JsValue))
| JsResponse (r : Response).

(** What [throw] carries: an [Error] instance (with its [message]) or any
    other value. *)
Inductive Thrown :=
| ThrownError (name message : string)
| ThrownValue (v : JsValue).

(** [typeof v]. *)
Definition typeof (v : JsValue) : string :=
  match v with
  | JsUndefined => "undefined"
  | JsNull => "object"
  | JsBoolean _ => "boolean"
  | JsNumber _ => "number"
  | JsString _ => "string"
  | JsArray _ | JsObject _ | JsResponse _ => "object"
  end.

(** [v === null] and [v === undefined]. *)
Definition is_null (v : JsValue) : bool :=
  match v with JsNull => true | _ => false end.

Definition is_undefined (v : JsValue) : bool :=
  match v with JsUndefined => true | _ => false end.

(** [v instanceof Response]. *)
Definition instanceof_Response (v : JsValue) : bool :=
  match v with JsResponse _ => true | _ => false end.

(** [o[key]] on the own properties of an object. *)
Fixpoint get_prop (key : string) (props : list (string * JsValue)) : option JsValue :=
  match props with
  | [] => None
  | (k, v) :: rest => if decide (k = key) then Some v else get_prop key rest
  end.

(** [key in v] for an object [v]. *)
Definition has_prop (key : string) (v : JsValue) : bool :=
  match v with
  | JsObject props => bool_decide (is_Some (get_prop key props))
  | _ => false
  end.

(** *** [Number::toString]

    [JsNumber n] is the Number value of the integer [n]: [n] itself up to
    2^53 and, beyond, the nearest double (ties to even), as a numeric
    literal denotes it.  Its text is the shortest decimal that denotes the
    same Number, written in full up to 21 digits and in exponent notation
    beyond. *)

(** The Number value of a non-negative integer: itself below 2^53, else
    the nearest double, ties to even; [None] is [Infinity]. *)
Definition Number_of_nonneg (x : Z) : option Z :=
  if x <? 2 ^ 53 then Some x
  else
    let e := Z.log2 x - 52 in
    let q := Z.shiftr x e in
    let r := x - Z.shiftl q e in
    let half := 2 ^ (e - 1) in
    let q' := if (half <? r) || ((r =? half) && Z.odd q) then q + 1 else q in
    let y := Z.shiftl q' e in
    if 2 ^ 1024 <=? y then None else Some y.

(** The number of decimal digits of a non-negative integer. *)
Definition decimal_digits (x : Z) : Z := Z.of_nat (String.length (pretty x)).

(** The decimal with [k] significant digits nearest to [x] that denotes
    the same Number as [x], if there is one. *)
Definition shortest_with (x : Z) (k : Z) : option Z :=
  let p := 10 ^ (decimal_digits x - k) in
  let s := x / p in
  let lo := s * p in
  let hi := (s + 1) * p in
  let ok y := bool_decide (Number_of_nonneg y = Some x) in
  match ok lo, ok hi with
  | true, true =>
      if x - lo <? hi - x then Some lo
      else if hi - x <? x - lo then Some hi
      else if Z.even s then Some lo else Some hi
  | true, false => Some lo
  | false, true => Some hi
  | false, false => None
  end.

(** The shortest decimal that denotes the Number [x]. *)
Definition shortest_decimal (x : Z) : Z :=
  default x (list_find is_Some
               ((λ k, shortest_with x (Z.of_nat k)) <$> seq 1 17) ≫= (λ r, r.2)).

(** Without the leading ["0"] characters. *)
Fixpoint strip_zeros_rev (s : list ascii) : list ascii :=
  match s with
  | "0"%char :: rest => strip_zeros_rev rest
  | _ => s
  end.

(** [Number::toString] of a positive finite integer Number. *)
Definition Number_toString_pos (x : Z) : string :=
  let y := shortest_decimal x in
  let n := decimal_digits y in
  if n <=? 21 then pretty y
  else
    let digits := reverse (strip_zeros_rev (reverse (list_ascii_of_string (pretty y)))) in
    match digits with
    | [] => "0"
    | d :: [] => String d ("e+" +:+ pretty (n - 1))
    | d :: rest => String d ("." +:+ string_of_list_ascii rest +:+ "e+" +:+ pretty (n - 1))
    end.

(** [String(x)] for the Number value of the integer [n]. *)
Definition Number_toString (n : Z) : string :=
  if n =? 0 then "0"
  else
    match Number_of_nonneg (Z.abs n) with
    | Some x => (if n <? 0 then "-" else "") +:+ Number_toString_pos x
    | None => (if n <? 0 then "-" else "") +:+ "Infinity"
    end.

(** [Number.isFinite(x)] for the Number value of the integer [n]. *)
Definition Number_isFinite (n : Z) : bool :=
  bool_decide (is_Some (Number_of_nonneg (Z.abs n))).

(** *** [JSON.stringify] *)

Definition hex_digit (n : nat) : ascii :=
  ascii_of_nat (if (n <? 10)%nat then 48 + n else 87 + n).

Definition JSON_escape (c : ascii) : string :=
  let n := nat_of_ascii c in
  if decide (c = dquote) then String "\" (String dquote "")
  else if decide (n = 92%nat) then "\\"
  else if decide (n = 8%nat) then "\b"
  else if decide (n = 12%nat) then "\f"
  else if decide (n = 10%nat) then "\n"
  else if decide (n = 13%nat) then "\r"
  else if decide (n = 9%nat) then "\t"
  else if (n <? 32)%nat then
    "\u00" +:+ String (hex_digit (n / 16)) (String (hex_digit (n mod 16)) "")
  else String c "".

Fixpoint JSON_escape_all (s : string) : string :=
  match s with
  | EmptyString => EmptyString
  | String c rest => JSON_escape c +:+ JSON_escape_all rest
  end.

Definition JSON_quote (s : string) : string :=
  String dquote (JSON_escape_all s +:+ String dquote "").

Definition join (sep : string) (l : list string) : string :=
  match l with
  | [] => ""
  | x :: xs => foldl (λ acc y, acc +:+ sep +:+ y) x xs
  end.

(** [JSON.stringify(v)]; [None] is the result [undefined].  A property
    whose value has no JSON text is left out of an object and written
    [null] in an array.  A [Response] has no own enumerable property. *)
Fixpoint JSON_stringify (v : JsValue) : option string :=
  match v with
  | JsUndefined => None
  | JsNull => Some "null"
  | JsBoolean b => Some (if b then "true" else "false")
  | JsNumber n => Some (if Number_isFinite n then Number_toString n else "null")
  | JsString s => Some (JSON_quote s)
  | JsArray vs =>
      Some ("[" +:+ join "," (map (λ x, default "null" (JSON_stringify x)) vs) +:+ "]")
  | JsObject ps =>
      Some ("{" +:+
            join "," (omap (λ p, (λ s, JSON_quote (fst p) +:+ ":" +:+ s)
                                   <$> JSON_stringify (snd p)) ps) +:+ "}")
  | JsResponse _ => Some "{}"
  end.

(** [String(v)], the conversion [new Response(v)] applies to a body that
    is not a string. *)
Fixpoint ToString (v : JsValue) : string :=
  match v with
  | JsUndefined => "undefined"
  | JsNull => "null"
  | JsBoolean b => if b then "true" else "false"
  | JsNumber n => Number_toString n
  | JsString s => s
  | JsArray vs =>
      join "," (map (λ x, match x with
                          | JsUndefined | JsNull => ""
                          | _ => ToString x
                          end) vs)
  | JsObject _ => "[object Object]"
  | JsResponse _ => "[object Response]"
  end.

(** *** [Response] operations *)

Definition TypeError (message : string) : Thrown := ThrownError "TypeError" message.

(** [new Response(body, { status, headers })]. *)
Definition Response_new (body : JsValue) (status : Z) (headers : Headers) : Response :=
  {| resp_status := status;
     resp_headers := headers;
     resp_body := match body with
                  | JsUndefined | JsNull => []
                  | _ => Buffer_from (ToString body)
                  end;
     resp_bodyUsed := false |}.

(** [r.clone()]: a second response over the same bytes; refused once the
    body has been read. *)
Definition Response_clone (r : Response) : Response + Thrown :=
  if resp_bodyUsed r then inr (TypeError "Body already used")
  else inl r.

(** [r.arrayBuffer()]: the bytes, and [r] with its body marked used. *)
Definition Response_arrayBuffer (r : Response) : (Response * Buffer) + Thrown :=
  if resp_bodyUsed r then inr (TypeError "Body already used")
  else inl ({| resp_status := resp_status r;
               resp_headers := resp_headers r;
               resp_body := resp_body r;
               resp_bodyUsed := true |}, resp_body r).

(** ** The request and its adapter (src/adapter.ts) *)

(** The Web-standard [Request] as the adapter reads it.  [req_pathname]
    stands for [new URL(request.url).pathname]. *)
Record Request := mkRequest {
  req_method : string;
  req_url : string;
  req_pathname : string;
  req_headers : Headers;
}.

Record ElysiaAdapter := mkElysiaAdapter {
  request : Request;
  parsedBody : JsValue;
}.

(** [a ?? b] and [a || b] on [string | undefined] (and [string | null]).
    The empty string is the one falsy string. *)
Definition nullish_or {A} (a : option A) (b : A) : A := default b a.

Definition truthy_string (s : string) : bool :=
  match s with EmptyString => false | _ => true end.

Definition js_or (a b : option string) : option string :=
  match a with
  | Some s => if truthy_string s then Some s else b
  | None => b
  end.

Module Adapter.

(** [new ElysiaAdapter(ctx)], from [ctx.request] and [ctx.body]. *)
Definition new (ctx_request : Request) (ctx_body : JsValue) : ElysiaAdapter :=
  let contentType := nullish_or (Headers_get (req_headers ctx_request) "content-type") "" in
  {| request := ctx_request;
     parsedBody := if String_includes "application/json" contentType
                   then ctx_body else JsUndefined |}.

Definition getHeader (a : ElysiaAdapter) (name : string) : option string :=
  Headers_get (req_headers (request a)) name.

Definition getMethod (a : ElysiaAdapter) : string := req_method (request a).

Definition getPath (a : ElysiaAdapter) : string := req_pathname (request a).

Definition getUrl (a : ElysiaAdapter) : string := req_url (request a).

Definition getAcceptHeader (a : ElysiaAdapter) : string :=
  nullish_or (Headers_get (req_headers (request a)) "accept") "".

Definition getUserAgent (a : ElysiaAdapter) : string :=
  nullish_or (Headers_get (req_headers (request a)) "user-agent") "".

Definition getBody (a : ElysiaAdapter) : JsValue := parsedBody a.

End Adapter.

(** *** Query parameters

    [this.url.searchParams] is the platform's parse of the request URL: a
    list of name/value pairs in the order of the query string, which the
    two functions below take as [params].  [keys()] yields the name of
    every pair, repeats included; [getAll(name)] the values under [name],
    in order. *)

Abbreviation URLSearchParams := (list (string * string)).

Definition URLSearchParams_keys (params : URLSearchParams) : list string := params.*1.

Definition URLSearchParams_getAll (params : URLSearchParams) (name : string) : list string :=
  (filter (λ kv, kv.1 = name) params).*2.

(** [string | string[]]. *)
Inductive QueryValue :=
| QueryString (v : string)
| QueryArray (vs : list string).

(** [values.length === 1 ? values[0] : values]. *)
Definition one_or_all (values : list string) : QueryValue :=
  match values with
  | [v] => QueryString v
  | _ => QueryArray values
  end.

(** [o[key] = v] on an object literal, as a map of the object's own
    properties.  Under the key [__proto__] the assignment runs the setter
    inherited from [Object.prototype], which creates no own property. *)
Definition Object_assign_prop {V} (key : string) (v : V) (o : gmap string V) : gmap string V :=
  if decide (key = "__proto__") then o else <[key := v]> o.

(** [getQueryParams()]: the loop over [params.keys()]. *)
Definition getQueryParams (params : URLSearchParams) : gmap string QueryValue :=
  foldl (λ result key,
           let values := URLSearchParams_getAll params key in
           Object_assign_prop key (one_or_all values) result)
        ∅ (URLSearchParams_keys params).

(** [getQueryParam(name)]; [None] is [undefined]. *)
Definition getQueryParam (params : URLSearchParams) (name : string) : option QueryValue :=
  let values := URLSearchParams_getAll params name in
  match values with
  | [] => None
  | _ => Some (one_or_all values)
  end.

(** ** The resource server's types (@x402/core) *)

Record HTTPRequestContext := mkHTTPRequestContext {
  adapter : ElysiaAdapter;
  path : string;
  method : string;
  paymentHeader : option string;
}.

(** [HTTPResponseInstructions]: what the resource server asks the
    middleware to send on a payment error. *)
Record HTTPResponseInstructions := mkInstructions {
  instr_status : Z;
  instr_headers : StringRecord;
  instr_body : JsValue;
  instr_isHtml : bool;
}.

(** [HTTPProcessResult], the tagged union on [type]. *)
Inductive HTTPProcessResult :=
| no_payment_required
| payment_error (response : HTTPResponseInstructions)
| payment_verified (paymentPayload paymentRequirements declaredExtensions : JsValue).

(** [ProcessSettleResultResponse], the tagged union on [success]. *)
Inductive ProcessSettleResultResponse :=
| settle_success (headers : StringRecord)
| settle_failure (errorReason : string).

Record VerifiedPaymentContext := mkVerified {
  paymentPayload : JsValue;
  paymentRequirements : JsValue;
  declaredExtensions : JsValue;
  context : HTTPRequestContext;
}.

(** The fourth argument of [processSettlement]. *)
Record TransportContext := mkTransport {
  tc_request : HTTPRequestContext;
  tc_responseBody : Buffer;
}.

(** The part of Elysia's per-request [ctx] the hooks touch.
    [x402PaymentContext] is the [value] of the holder that [derive]
    attaches; [response] is what the route handler returned;
    [set_headers] is [ctx.set.headers], a plain object. *)
Record Context := mkContext {
  ctx_request : Request;
  ctx_body : JsValue;
  x402PaymentContext : option VerifiedPaymentContext;
  response : JsValue;
  set_headers : gmap string string;
}.

Definition with_x402PaymentContext (v : option VerifiedPaymentContext) (ctx : Context) : Context :=
  {| ctx_request := ctx_request ctx; ctx_body := ctx_body ctx;
     x402PaymentContext := v;
     response := response ctx; set_headers := set_headers ctx |}.

Definition with_set_headers (h : gmap string string) (ctx : Context) : Context :=
  {| ctx_request := ctx_request ctx; ctx_body := ctx_body ctx;
     x402PaymentContext := x402PaymentContext ctx;
     response := response ctx; set_headers := h |}.

Definition with_handler_output (r : JsValue) (h : gmap string string) (ctx : Context) : Context :=
  {| ctx_request := ctx_request ctx; ctx_body := ctx_body ctx;
     x402PaymentContext := x402PaymentContext ctx;
     response := r; set_headers := h |}.

(** ** Route configuration and [checkIfBazaarNeeded] *)

Record RouteConfig := mkRouteConfig {
  accepts : JsValue;
  extensions : option (list (string * JsValue));
}.

(** [RoutesConfig]: one [RouteConfig] (it has [accepts]) or a record of
    them by route pattern. *)
Inductive RoutesConfig :=
| SingleRoute (rc : RouteConfig)
| MultiRoute (routes : list (string * RouteConfig)).

Definition declares_bazaar (rc : RouteConfig) : bool :=
  match extensions rc with
  | Some exts => bool_decide (is_Some (get_prop "bazaar" exts))
  | None => false
  end.

Definition checkIfBazaarNeeded (routes : RoutesConfig) : bool :=
  match routes with
  | SingleRoute rc => declares_bazaar rc
  | MultiRoute rs => existsb declares_bazaar (rs.*2)
  end.

(** ** Hooks: calls, exceptions, [try]/[catch] *)

(** The two promises the plugin keeps in its closure. *)
Inductive Promise :=
| initialize_promise   (* httpServer.initialize() *)
| bazaar_promise.      (* import("@x402/extensions/bazaar").then(..).catch(..) *)

(** What a hook does to the world outside it: calls to the resource server
    ([httpServer]), reads and writes of the closure variables [initPromise]
    and [bazaarPromise], [await] on a promise, the console, and (for the
    lifecycle) the route handler. *)
Inductive Call : Type → Type :=
| requiresPayment (c : HTTPRequestContext) : Call bool
| get_initPromise : Call (option Promise)
| set_initPromise_null : Call unit
| get_bazaarPromise : Call (option Promise)
| set_bazaarPromise_null : Call unit
| await (p : Promise) : Call unit
| processHTTPRequest (c : HTTPRequestContext) (paywallConfig : JsValue)
    : Call HTTPProcessResult
| processSettlement (payload requirements extensions : JsValue) (tc : TransportContext)
    : Call ProcessSettleResultResponse
| console_error (label : string) (err : Thrown) : Call unit
| route_handler (ctx : Context) : Call (JsValue * gmap string string).

(** A hook is a finite tree: it returns, throws, or makes a call and goes
    on with the call's completion, normal ([inl]) or abrupt ([inr]). *)
Inductive Hook (A : Type) : Type :=
| Ret (a : A)
| Throw (e : Thrown)
| Vis {X : Type} (c : Call X) (k : X + Thrown → Hook A).

Arguments Ret {A} a.
Arguments Throw {A} e.
Arguments Vis {A X} c k.

Fixpoint Hook_bind {A B} (f : A → Hook B) (m : Hook A) : Hook B :=
  match m with
  | Ret a => f a
  | Throw e => Throw e
  | Vis c k => Vis c (λ r, Hook_bind f (k r))
  end.

#[global] Instance Hook_mret : MRet Hook := λ A a, Ret a.
#[global] Instance Hook_mbind : MBind Hook := λ A B f m, Hook_bind f m.

(** [try { body } catch (err) { handler err }]. *)
Fixpoint try_catch {A} (body : Hook A) (handler : Thrown → Hook A) : Hook A :=
  match body with
  | Ret a => Ret a
  | Throw e => handler e
  | Vis c k => Vis c (λ r, try_catch (k r) handler)
  end.

(** A call whose abrupt completion is rethrown. *)
Definition call {X} (c : Call X) : Hook X :=
  Vis c (λ r, match r with inl x => Ret x | inr e => Throw e end).

(** A pure operation that may throw. *)
Definition lift {X} (r : X + Thrown) : Hook X :=
  match r with inl x => Ret x | inr e => Throw e end.

(** ** The plugin (src/index.ts, [paymentMiddlewareFromHTTPServer]) *)

(** The closure variables of one plugin instance. *)
Record Plugin := mkPlugin {
  initPromise : option Promise;
  bazaarPromise : option Promise;
}.

(** Construction: [initialize()] is started when [syncFacilitatorOnStart];
    the bazaar extension is loaded when a route declares it and the server
    does not have it yet. *)
Definition paymentMiddlewareFromHTTPServer
    (routes : RoutesConfig) (hasExtension_bazaar : bool)
    (syncFacilitatorOnStart : bool) : Plugin :=
  {| initPromise := if syncFacilitatorOnStart then Some initialize_promise else None;
     bazaarPromise := if checkIfBazaarNeeded routes && negb hasExtension_bazaar
                      then Some bazaar_promise else None |}.

(** [derive]: a fresh holder, [{ value: null }], on each request context. *)
Definition derive (req : Request) (body : JsValue) : Context :=
  {| ctx_request := req; ctx_body := body;
     x402PaymentContext := None;
     response := JsUndefined; set_headers := ∅ |}.

(** The header selection of [onBeforeHandle]:
    [adapter.getHeader("payment-signature") || adapter.getHeader("x-payment")]. *)
Definition select_paymentHeader (a : ElysiaAdapter) : option string :=
  js_or (Adapter.getHeader a "payment-signature") (Adapter.getHeader a "x-payment").

Definition build_context (ctx : Context) : HTTPRequestContext :=
  let adapter := Adapter.new (ctx_request ctx) (ctx_body ctx) in
  {| adapter := adapter;
     path := Adapter.getPath adapter;
     method := Adapter.getMethod adapter;
     paymentHeader := select_paymentHeader adapter |}.

Definition Headers_of (r : StringRecord) : Headers :=
  foldl (λ h kv, Headers_set kv.1 kv.2 h) ∅ (Object_entries r).

Definition JsValue_of_string (s : option string) : JsValue :=
  match s with Some s => JsString s | None => JsUndefined end.

(** [v ?? {}]. *)
Definition or_empty_object (v : JsValue) : JsValue :=
  match v with JsUndefined | JsNull => JsObject [] | _ => v end.

(** The [case "payment-error"] branch. *)
Definition payment_error_response (response : HTTPResponseInstructions) : Response :=
  let headers := Headers_of (instr_headers response) in
  if instr_isHtml response then
    let headers := Headers_set "content-type" "text/html; charset=utf-8" headers in
    Response_new (instr_body response) (instr_status response) headers
  else
    let headers := Headers_set "content-type" "application/json" headers in
    Response_new (JsValue_of_string (JSON_stringify (or_empty_object (instr_body response))))
                 (instr_status response) headers.

(** What a hook hands back to Elysia: the context as it left it, and the
    [Response] it returned, if any ([None] is a plain [return]). *)
Abbreviation HookResult := (Context * option Response)%type.

Definition onBeforeHandle (paywallConfig : JsValue) (ctx : Context) : Hook HookResult :=
  let context := build_context ctx in
  required ← call (requiresPayment context);
  if negb required then Ret (ctx, None)
  else
    ip ← call get_initPromise;
    _ ← match ip with
        | Some p => _ ← call (await p); call set_initPromise_null
        | None => Ret tt
        end;
    bp ← call get_bazaarPromise;
    _ ← match bp with
        | Some p => _ ← call (await p); call set_bazaarPromise_null
        | None => Ret tt
        end;
    result ← call (processHTTPRequest context paywallConfig);
    match result with
    | no_payment_required => Ret (ctx, None)
    | payment_error response => Ret (ctx, Some (payment_error_response response))
    | payment_verified payload requirements extensions =>
        Ret (with_x402PaymentContext
               (Some {| paymentPayload := payload;
                        paymentRequirements := requirements;
                        declaredExtensions := extensions;
                        context := context |}) ctx, None)
    end.

(** [r instanceof Response && r.status >= 400]. *)
Definition Response_status_ge_400 (r : JsValue) : bool :=
  match r with
  | JsResponse resp => 400 <=? resp_status resp
  | _ => false
  end.

(** [r !== null && typeof r === "object" && "code" in r &&
     typeof r.code === "number" && r.code >= 400]. *)
Definition code_ge_400 (r : JsValue) : bool :=
  negb (is_null r) &&
  bool_decide (typeof r = "object") &&
  has_prop "code" r &&
  match r with
  | JsObject props =>
      match get_prop "code" props with
      | Some (JsNumber code) => 400 <=? code
      | _ => false
      end
  | _ => false
  end.

(** The serialisation of the handler's result into [responseBody], the
    four-way [if] of [onAfterHandle]. *)
Definition serialise_responseBody (r : JsValue) : Hook Buffer :=
  match r with
  | JsResponse resp =>
      (* Buffer.from(await r.clone().arrayBuffer()) *)
      clone ← lift (Response_clone resp);
      read ← lift (Response_arrayBuffer clone);
      Ret read.2
  | JsString s =>
      (* typeof r === "string" *)
      Ret (Buffer_from s)
  | JsArray _ | JsObject _ =>
      (* r !== null && r !== undefined && typeof r === "object" *)
      match JSON_stringify r with
      | Some s => Ret (Buffer_from s)
      | None => Throw (TypeError "The first argument must be of type string")
      end
  | JsUndefined | JsNull | JsBoolean _ | JsNumber _ =>
      (* null, undefined, or a primitive other than string *)
      Ret (Buffer_alloc 0)
  end.

(** The fixed 402 reply of both failure paths. *)
Definition settlement_failed_response (details : string) : Response :=
  Response_new
    (JsValue_of_string
       (JSON_stringify (JsObject [("error", JsString "Settlement failed");
                                  ("details", JsString details)])))
    402
    (Headers_of [("content-type", "application/json")]).

(** [for (const [key, value] of Object.entries(h)) ctx.set.headers[key] = value]. *)
Definition merge_set_headers (h : StringRecord) (set : gmap string string)
    : gmap string string :=
  foldl (λ acc kv, <[kv.1 := kv.2]> acc) set (Object_entries h).

(** [err instanceof Error ? err.message : "Unknown error"]. *)
Definition error_message (err : Thrown) : string :=
  match err with
  | ThrownError _ message => message
  | ThrownValue _ => "Unknown error"
  end.

Definition onAfterHandle (ctx : Context) : Hook HookResult :=
  match x402PaymentContext ctx with
  | None => Ret (ctx, None)
  | Some paymentCtx =>
      let r := response ctx in
      if Response_status_ge_400 r then Ret (ctx, None)
      else if code_ge_400 r then Ret (ctx, None)
      else
        responseBody ← serialise_responseBody r;
        try_catch
          (settleResult ←
             call (processSettlement
                     (paymentPayload paymentCtx)
                     (paymentRequirements paymentCtx)
                     (declaredExtensions paymentCtx)
                     {| tc_request := context paymentCtx;
                        tc_responseBody := responseBody |});
           match settleResult with
           | settle_failure errorReason =>
               Ret (ctx, Some (settlement_failed_response errorReason))
           | settle_success headers =>
               Ret (with_set_headers (merge_set_headers headers (set_headers ctx)) ctx,
                    None)
           end)
          (λ err,
             let message := error_message err in
             _ ← call (console_error "[x402-elysia] Settlement error:" err);
             Ret (ctx, Some (settlement_failed_response message)))
  end.

(** ** One request through Elysia's lifecycle

    [derive], then [onBeforeHandle]; a [Response] returned there ends the
    lifecycle.  Otherwise the route handler runs, then [onAfterHandle]; a
    [Response] returned there replaces the handler's result, and otherwise
    the handler's result goes out.  Either way Elysia sends the reply
    under [ctx.set.headers] as the hooks and the handler left them. *)
Inductive Outgoing :=
| Replaced (resp : Response) (headers : gmap string string)
| Handled (result : JsValue) (headers : gmap string string).

(** After [onBeforeHandle]: stop on a returned [Response], else run the
    route handler and [onAfterHandle]. *)
Definition after_beforeHandle (before : HookResult) : Hook Outgoing :=
  match before.2 with
  | Some resp => Ret (Replaced resp (set_headers before.1))
  | None =>
      out ← call (route_handler before.1);
      let ctx := with_handler_output out.1 out.2 before.1 in
      after ← onAfterHandle ctx;
      match after.2 with
      | Some resp => Ret (Replaced resp (set_headers after.1))
      | None => Ret (Handled (response after.1) (set_headers after.1))
      end
  end.

Definition lifecycle (paywallConfig : JsValue) (req : Request) (body : JsValue)
    : Hook Outgoing :=
  before ← onBeforeHandle paywallConfig (derive req body);
  after_beforeHandle before.

(** ** Running a hook against a resource server *)

(** The calls that leave the plugin, as a trace records them. *)
Inductive Event :=
| EvRequiresPayment (c : HTTPRequestContext)
| EvAwait (p : Promise)
| EvProcessHTTPRequest (c : HTTPRequestContext) (paywallConfig : JsValue)
| EvProcessSettlement (payload requirements extensions : JsValue) (tc : TransportContext)
| EvConsoleError (label : string) (err : Thrown)
| EvRouteHandler (ctx : Context).

(** The resource server, the facilitator behind it and the application's
    route handler: how each call completes. *)
Record Server := mkServer {
  srv_requiresPayment : HTTPRequestContext → bool;
  srv_initialize : unit + Thrown;
  srv_processHTTPRequest : HTTPRequestContext → JsValue → HTTPProcessResult + Thrown;
  srv_processSettlement :
    JsValue → JsValue → JsValue → TransportContext → ProcessSettleResultResponse + Thrown;
  srv_route_handler : Context → (JsValue * gmap string string) + Thrown;
}.

(** The plugin's closure variables and the trace so far. *)
Record World := mkWorld {
  plugin : Plugin;
  trace : list Event;
}.

Definition log (e : Event) (w : World) : World :=
  {| plugin := plugin w; trace := trace w ++ [e] |}.

Definition with_plugin (p : Plugin) (w : World) : World :=
  {| plugin := p; trace := trace w |}.

Section Run.

Variable srv : Server.

(** The bazaar promise ends in [.catch], so it never rejects. *)
Definition settle_promise (p : Promise) : unit + Thrown :=
  match p with
  | initialize_promise => srv_initialize srv
  | bazaar_promise => inl tt
  end.

Definition perform {X} (c : Call X) (w : World) : World * (X + Thrown) :=
  match c in Call X return World * (X + Thrown) with
  | requiresPayment c =>
      (log (EvRequiresPayment c) w, inl (srv_requiresPayment srv c))
  | get_initPromise => (w, inl (initPromise (plugin w)))
  | set_initPromise_null =>
      (with_plugin {| initPromise := None;
                      bazaarPromise := bazaarPromise (plugin w) |} w, inl tt)
  | get_bazaarPromise => (w, inl (bazaarPromise (plugin w)))
  | set_bazaarPromise_null =>
      (with_plugin {| initPromise := initPromise (plugin w);
                      bazaarPromise := None |} w, inl tt)
  | await p => (log (EvAwait p) w, settle_promise p)
  | processHTTPRequest c cfg =>
      (log (EvProcessHTTPRequest c cfg) w, srv_processHTTPRequest srv c cfg)
  | processSettlement payload requirements exts tc =>
      (log (EvProcessSettlement payload requirements exts tc) w,
       srv_processSettlement srv payload requirements exts tc)
  | console_error label err => (log (EvConsoleError label err) w, inl tt)
  | route_handler ctx => (log (EvRouteHandler ctx) w, srv_route_handler srv ctx)
  end.

Fixpoint exec {A} (h : Hook A) (w : World) : World * (A + Thrown) :=
  match h with
  | Ret a => (w, inl a)
  | Throw e => (w, inr e)
  | Vis c k => let wr := perform c w in exec (k wr.2) wr.1
  end.

End Run.

(** The calls of each kind in a trace. *)
Definition settle_calls (t : list Event)
    : list (JsValue * JsValue * JsValue * TransportContext) :=
  omap (λ e, match e with
             | EvProcessSettlement p r x tc => Some (p, r, x, tc)
             | _ => None
             end) t.

Definition verify_calls (t : list Event) : list (HTTPRequestContext * JsValue) :=
  omap (λ e, match e with
             | EvProcessHTTPRequest c cfg => Some (c, cfg)
             | _ => None
             end) t.

Definition awaits (t : list Event) : list Promise :=
  omap (λ e, match e with EvAwait p => Some p | _ => None end) t.

(** A fresh trace for one request, under the plugin state [p]. *)
Definition start (p : Plugin) : World := {| plugin := p; trace := [] |}.

(** Requests served one after the other by one plugin instance: the trace
    of each request and the plugin state it leaves. *)
Fixpoint serve (srv : Server) (paywallConfig : JsValue)
    (requests : list (Request * JsValue)) (p : Plugin)
    : list (list Event * Plugin) :=
  match requests with
  | [] => []
  | rq :: rest =>
      let w := (exec srv (lifecycle paywallConfig rq.1 rq.2) (start p)).1 in
      (trace w, plugin w) :: serve srv paywallConfig rest (plugin w)
  end.

(** ** Requests in flight

    JavaScript runs a hook without interruption up to its next [await];
    there another request may run.  A request in flight is the rest of its
    lifecycle, stopped at the call it waits for. *)

(** The calls a hook waits for. *)
Definition suspends {X} (c : Call X) : bool :=
  match c with
  | await _ | processHTTPRequest _ _ | processSettlement _ _ _ _
  | route_handler _ => true
  | _ => false
  end.

(** Run up to the next suspension. *)
Fixpoint run_sync (srv : Server) {A} (h : Hook A) (w : World) : World * Hook A :=
  match h with
  | Vis c k =>
      if suspends c then (w, h)
      else let wr := perform srv c w in run_sync srv (k wr.2) wr.1
  | _ => (w, h)
  end.

(** One plugin instance and the requests it is serving; the journal keeps
    every event with the number of the request that caused it. *)
Record Pool := mkPool {
  closure : Plugin;
  flights : list (Hook Outgoing);
  journal : list (nat * Event);
}.

(** The scheduler's moves: a request arrives and runs to its first
    suspension; or the call a request waits for completes and the request
    runs to its next one. *)
Inductive Action :=
| Arrive (req : Request) (body : JsValue)
| Resume (i : nat).

Definition pool_step (srv : Server) (paywallConfig : JsValue) (a : Action) (s : Pool)
    : option Pool :=
  match a with
  | Arrive req body =>
      let wh := run_sync srv (lifecycle paywallConfig req body) (start (closure s)) in
      Some {| closure := plugin wh.1;
              flights := flights s ++ [wh.2];
              journal := journal s ++ (pair (List.length (flights s)) <$> trace wh.1) |}
  | Resume i =>
      match flights s !! i with
      | Some (Vis c k) =>
          let wr := perform srv c (start (closure s)) in
          let wh := run_sync srv (k wr.2) wr.1 in
          Some {| closure := plugin wh.1;
                  flights := <[i := wh.2]> (flights s);
                  journal := journal s ++ (pair i <$> trace wh.1) |}
      | _ => None
      end
  end.

Fixpoint pool_run (srv : Server) (paywallConfig : JsValue) (sched : list Action)
    (s : Pool) : option Pool :=
  match sched with
  | [] => Some s
  | a :: rest => pool_step srv paywallConfig a s ≫= pool_run srv paywallConfig rest
  end.

Definition empty_pool (p : Plugin) : Pool :=
  {| closure := p; flights := []; journal := [] |}.

(** ** Vocabulary of the properties *)

(** The [await] a promise slot of the plugin causes when it is set. *)
Definition pending (o : option Promise) : list Event :=
  match o with Some q => [EvAwait q] | None => [] end.

(** The settlement call for a verified payment and a serialised body. *)
Definition settle_args (pc : VerifiedPaymentContext) (b : Buffer)
    : JsValue * JsValue * JsValue * TransportContext :=
  (paymentPayload pc, paymentRequirements pc, declaredExtensions pc,
   {| tc_request := context pc; tc_responseBody := b |}).

(** The text of [{ error: "Settlement failed", details }] as
    [JSON.stringify] writes it. *)
Definition settlement_failed_json (details : string) : string :=
  "{" +:+ JSON_quote "error" +:+ ":" +:+ JSON_quote "Settlement failed" +:+ ","
      +:+ JSON_quote "details" +:+ ":" +:+ JSON_quote details +:+ "}".

(** Both header loops of the source assign the entries of a record, in
    order, into a map: [headers.set(key, value)] under the lower-cased
    name ([g] is [toLowerCase]), [ctx.set.headers[key] = value] under the
    name itself ([g] is the identity). *)
Definition assign_all (g : string → string) (h : StringRecord)
    (m : gmap string string) : gmap string string :=
  foldl (λ acc kv, <[g kv.1 := kv.2]> acc) m h.

(** The status [onAfterHandle] can see in a handler result: the [status]
    of a [Response], or the numeric [code] of the wrapper that Elysia's
    [status()] / [error()] helpers produce.  A plain value shows none. *)
Definition handler_status (r : JsValue) : option Z :=
  match r with
  | JsResponse resp => Some (resp_status resp)
  | JsObject props =>
      match get_prop "code" props with
      | Some (JsNumber code) => Some code
      | _ => None
      end
  | _ => None
  end.

(** Neither check reports a client error. *)
Definition status_below_400 (r : JsValue) : Prop :=
  ∀ s, handler_status r = Some s → s < 400.

(** A [Response] whose body has not been read yet can still be sent (and
    cloned); every other handler result can. *)
Definition deliverable (r : JsValue) : Prop :=
  match r with
  | JsResponse resp => resp_bodyUsed resp = false
  | _ => True
  end.

(** A call that awaits the initialisation. *)
Definition awaits_init {X} (c : Call X) : bool :=
  match c with
  | await initialize_promise => true
  | _ => false
  end.

(** A call that reads, clears or awaits a promise slot of the closure. *)
Definition touches_closure {X} (c : Call X) : bool :=
  match c with
  | get_initPromise | set_initPromise_null | get_bazaarPromise
  | set_bazaarPromise_null | await _ => true
  | _ => false
  end.

(** A hook that leaves the promise slots alone, whatever its calls answer. *)
Fixpoint quiet {A} (h : Hook A) : Prop :=
  match h with
  | Vis c k => touches_closure c = false ∧ ∀ r, quiet (k r)
  | _ => True
  end.

(** The closure once the initialisation has been awaited. *)
Definition Cleared (p : Plugin) : Prop :=
  initPromise p = None ∧ bazaarPromise p ≠ Some initialize_promise.

(** What reading a slot of a cleared closure can answer. *)
Definition cleared_answer {X} (c : Call X) : X + Thrown → Prop :=
  match c in Call X return X + Thrown → Prop with
  | get_initPromise => λ r, r = inl None
  | get_bazaarPromise => λ r, r ≠ inl (Some initialize_promise)
  | _ => λ _, True
  end.

(** A hook that, run against a cleared closure, never awaits the
    initialisation. *)
Fixpoint skips_init {A} (h : Hook A) : Prop :=
  match h with
  | Vis c k => awaits_init c = false ∧ ∀ r, cleared_answer c r → skips_init (k r)
  | _ => True
  end.

(** Request [i] asked the classifier and was told that payment is
    required. *)
Definition protected_flight (srv : Server) (j : list (nat * Event)) (i : nat) : Prop :=
  ∃ c, (i, EvRequiresPayment c) ∈ j ∧ srv_requiresPayment srv c = true.

(** Each slot of the closure holds the promise it was made for. *)
Definition slots_ok (p : Plugin) : Prop :=
  initPromise p ≠ Some bazaar_promise ∧ bazaarPromise p ≠ Some initialize_promise.

(** The contexts the route handler was run with. *)
Definition handler_calls (t : list Event) : list Context :=
  omap (λ e, match e with EvRouteHandler c => Some c | _ => None end) t.

(** ** Sample data (after test/index.test.ts) *)

Definition request_with (h : Headers) : Request :=
  {| req_method := "GET"; req_url := "http://localhost/api/weather";
     req_pathname := "/api/weather"; req_headers := h |}.

Definition adapter_with (h : Headers) : ElysiaAdapter :=
  Adapter.new (request_with h) JsUndefined.

Definition paid_request : Request :=
  request_with {[ "payment-signature" := "some-payment" ]}.

Definition MOCK_PAYMENT_REQUIREMENTS : JsValue :=
  JsObject [("scheme", JsString "exact"); ("network", JsString "eip155:8453");
            ("amount", JsString "1000"); ("payTo", JsString "0xRecipientAddress");
            ("maxTimeoutSeconds", JsNumber 300)].

Definition MOCK_PAYMENT_PAYLOAD : JsValue :=
  JsObject [("x402Version", JsNumber 2);
            ("accepted", MOCK_PAYMENT_REQUIREMENTS);
            ("payload", JsObject [("signature", JsString "0xdeadbeef");
                                  ("nonce", JsString "abc123")])].

(** [createMockHTTPServer]: every route is protected, verification gives
    [verified], settlement completes as [settled], and the route handler
    returns [result]. *)
Definition createMockHTTPServer (verified : HTTPProcessResult)
    (settled : ProcessSettleResultResponse + Thrown) (result : JsValue) : Server :=
  {| srv_requiresPayment := λ _, true;
     srv_initialize := inl tt;
     srv_processHTTPRequest := λ _ _, inl verified;
     srv_processSettlement := λ _ _ _ _, settled;
     srv_route_handler := λ _, inl (result, ∅) |}.

Definition mock_verified : HTTPProcessResult :=
  payment_verified MOCK_PAYMENT_PAYLOAD MOCK_PAYMENT_REQUIREMENTS JsUndefined.

Definition mock_paymentCtx : VerifiedPaymentContext :=
  {| paymentPayload := MOCK_PAYMENT_PAYLOAD;
     paymentRequirements := MOCK_PAYMENT_REQUIREMENTS;
     declaredExtensions := JsUndefined;
     context := build_context (derive paid_request JsUndefined) |}.

(** The context [onAfterHandle] receives once the payment is verified and
    the route handler has returned [result]. *)
Definition verified_ctx (result : JsValue) : Context :=
  with_handler_output result ∅
    (with_x402PaymentContext (Some mock_paymentCtx) (derive paid_request JsUndefined)).

Definition weather : JsValue := JsObject [("temp", JsNumber 72)].

(** What [status(404, { error: "not found" })] returns. *)
Definition not_found : JsValue :=
  JsObject [("code", JsNumber 404);
            ("response", JsObject [("error", JsString "not found")])].

Definition receipt_headers : StringRecord := [("payment-response", "r1")].

Definition fresh_plugin : Plugin :=
  paymentMiddlewareFromHTTPServer (MultiRoute []) true true.

Definition paying_server : Server :=
  createMockHTTPServer mock_verified (inl (settle_success receipt_headers)) weather.

(** The requests, by number, that awaited the initialisation. *)
Definition who_awaited_init (j : list (nat * Event)) : list nat :=
  omap (λ ie, match ie.2 with
              | EvAwait initialize_promise => Some ie.1
              | _ => None
              end) j.

(** A server whose health route is free. *)
Definition unprotected_server : Server :=
  {| srv_requiresPayment := λ _, false;
     srv_initialize := inl tt;
     srv_processHTTPRequest := λ _ _, inl no_payment_required;
     srv_processSettlement := λ _ _ _ _, inl (settle_success []);
     srv_route_handler := λ _, inl (JsString "ok", ∅) |}.

(** Test 13: custom headers on a payment error. *)
Definition custom_headers_error : HTTPResponseInstructions :=
  {| instr_status := 402;
     instr_headers := [("payment-required", "encoded-req");
                       ("x-custom-header", "custom-value");
                       ("x-another-header", "another-value")];
     instr_body := JsObject [("error", JsString "Payment required")];
     instr_isHtml := false |}.

(** A payment error whose header record brings its own content type, as
    the resource server builds it for a custom unpaid response body. *)
Definition custom_content_type : HTTPResponseInstructions :=
  {| instr_status := 402;
     instr_headers := [("Content-Type", "text/plain");
                       ("PAYMENT-REQUIRED", "encoded-req")];
     instr_body := JsString "Payment required";
     instr_isHtml := false |}.

(** A [Response] of status 200 whose body has already been read. *)
Definition spent_response : Response :=
  {| resp_status := 200; resp_headers := ∅;
     resp_body := Buffer_from "paid content"; resp_bodyUsed := true |}.

(** A query string with a repeated parameter: [?tag=a&q=x&tag=b]. *)
Definition sample_query : URLSearchParams := [("tag", "a"); ("q", "x"); ("tag", "b")].

Definition health_request : Request :=
  {| req_method := "GET"; req_url := "http://localhost/health";
     req_pathname := "/health"; req_headers := ∅ |}.

Definition facilitator_down : Thrown := ThrownError "Error" "facilitator unreachable".

(** A server that protects [/api/weather] only and whose [initialize()]
    rejects. *)
Definition unsynced_server : Server :=
  {| srv_requiresPayment := λ c, bool_decide (path c = "/api/weather");
     srv_initialize := inr facilitator_down;
     srv_processHTTPRequest := λ _ _, inl mock_verified;
     srv_processSettlement := λ _ _ _ _, inl (settle_success receipt_headers);
     srv_route_handler := λ _, inl (weather, ∅) |}.

Definition weather_body : Buffer := Buffer_from (default "" (JSON_stringify weather)).

Definition mock_settle_args : JsValue * JsValue * JsValue * TransportContext :=
  settle_args mock_paymentCtx weather_body.

(** * Properties *)

(** ** Assignment loops *)
Section Assign.

Variable g : string → string.

(** A key no entry is assigned under keeps its value. *)
Lemma assign_all_other h m k :
  (∀ kv, kv ∈ h → g kv.1 ≠ k) → assign_all g h m !! k = m !! k.
Proof.
  revert m. induction h as [|[a b] h IH]; intros m Hk; simpl; [done|].
  rewrite IH.
  - apply lookup_insert_ne. apply (Hk (a, b)). left.
  - intros kv Hin. apply Hk. by right.
Qed.

(** The last entry assigned under a key decides its value. *)
Lemma assign_all_last h1 h2 m k v :
  (∀ kv, kv ∈ h2 → g kv.1 ≠ g k) →
  assign_all g (h1 ++ (k, v) :: h2) m !! g k = Some v.
Proof.
  intros Hk. revert m. induction h1 as [|[a b] h1 IH]; intros m; simpl.
  - fold (assign_all g h2 (<[g k:=v]> m)). rewrite assign_all_other; [|done].
    apply lookup_insert_eq.
  - apply IH.
Qed.

End Assign.

Lemma Headers_of_assign (r : StringRecord) : Headers_of r = assign_all toLowerCase r ∅.
Proof. reflexivity. Qed.

Lemma merge_set_headers_assign (h : StringRecord) (set : gmap string string) :
  merge_set_headers h set = assign_all id h set.
Proof. reflexivity. Qed.

(** ** Running binds and handlers *)
Section RunFacts.

Variable srv : Server.

Lemma exec_Hook_bind {A B} (f : A → Hook B) (m : Hook A) (w : World) :
  exec srv (Hook_bind f m) w =
  match exec srv m w with
  | (w', inl a) => exec srv (f a) w'
  | (w', inr e) => (w', inr e)
  end.
Proof.
  revert w. induction m as [a|e|X c k IH]; intros w; simpl; [done..|].
  apply IH.
Qed.

Lemma exec_bind {A B} (m : Hook A) (f : A → Hook B) (w : World) :
  exec srv (m ≫= f) w =
  match exec srv m w with
  | (w', inl a) => exec srv (f a) w'
  | (w', inr e) => (w', inr e)
  end.
Proof. apply exec_Hook_bind. Qed.

Lemma exec_try_catch {A} (m : Hook A) (h : Thrown → Hook A) (w : World) :
  exec srv (try_catch m h) w =
  match exec srv m w with
  | (w', inl a) => (w', inl a)
  | (w', inr e) => exec srv (h e) w'
  end.
Proof.
  revert w. induction m as [a|e|X c k IH]; intros w; simpl; [done..|].
  apply IH.
Qed.

(** A run only ever extends the trace. *)
Lemma exec_trace_extends {A} (m : Hook A) (w : World) :
  ∃ t, trace (exec srv m w).1 = trace w ++ t.
Proof.
  revert w. induction m as [a|e|X c k IH]; intros w; simpl.
  - exists []. by rewrite app_nil_r.
  - exists []. by rewrite app_nil_r.
  - destruct (IH (perform srv c w).2 (perform srv c w).1) as [t Ht].
    rewrite Ht. destruct c; simpl; eauto; rewrite <- ?app_assoc; eauto.
Qed.

End RunFacts.

(** ** The status the short-circuit reads *)

Lemma checks_below_400 (r : JsValue) :
  Response_status_ge_400 r = false ∧ code_ge_400 r = false ↔ status_below_400 r.
Proof.
  unfold status_below_400. split.
  - intros [H1 H2] s Hs. destruct r; simpl in *; try discriminate.
    + unfold code_ge_400 in H2. simpl in H2.
      destruct (get_prop "code" props) as [[]|] eqn:E; try discriminate.
      simplify_eq. rewrite bool_decide_eq_true_2 in H2 by eauto.
      simpl in H2. lia.
    + simplify_eq. lia.
  - intros H. destruct r; simpl in *; try done.
    + split; [done|]. unfold code_ge_400. simpl.
      destruct (get_prop "code" props) as [[]|] eqn:E;
        rewrite ?andb_false_r; try done.
      specialize (H _ eq_refl). apply andb_false_intro2. lia.
    + split; [|done]. specialize (H _ eq_refl). lia.
Qed.

Lemma checks_at_least_400 (r : JsValue) :
  Response_status_ge_400 r = true ∨ code_ge_400 r = true ↔
  ∃ s, handler_status r = Some s ∧ 400 ≤ s.
Proof.
  split.
  - intros [H|H]; destruct r; simpl in *; try discriminate.
    + eexists; split; [done|]. lia.
    + unfold code_ge_400 in H. simpl in H.
      destruct (get_prop "code" props) as [[]|] eqn:E;
        rewrite ?andb_false_r in H; try discriminate.
      apply andb_true_iff in H as [_ H]. eexists; split; [done|]. lia.
  - intros (s & Hs & Hge). destruct r; simpl in *; try discriminate.
    + right. unfold code_ge_400. simpl.
      destruct (get_prop "code" props) as [[]|] eqn:E; try discriminate.
      simplify_eq. rewrite bool_decide_eq_true_2 by eauto. simpl. lia.
    + left. simplify_eq. lia.
Qed.

(** Runs the bind at the head of the hook under [exec]. *)
Ltac run_bind :=
  unfold mbind, Hook_mbind; rewrite exec_Hook_bind.

(** ** What each hook does, case by case *)

#[local] Arguments build_context : simpl never.
#[local] Arguments payment_error_response : simpl never.
#[local] Arguments settlement_failed_response : simpl never.
#[local] Arguments merge_set_headers : simpl never.

Lemma awaits_app (t1 t2 : list Event) : awaits (t1 ++ t2) = awaits t1 ++ awaits t2.
Proof. apply omap_app. Qed.

Lemma settle_calls_app (t1 t2 : list Event) :
  settle_calls (t1 ++ t2) = settle_calls t1 ++ settle_calls t2.
Proof. apply omap_app. Qed.

Lemma verify_calls_app (t1 t2 : list Event) :
  verify_calls (t1 ++ t2) = verify_calls t1 ++ verify_calls t2.
Proof. apply omap_app. Qed.

Lemma awaits_pending (o : option Promise) : awaits (pending o) = option_list o.
Proof. by destruct o. Qed.

(** Every deliverable handler result has a serialisation. *)
Lemma serialise_deliverable (r : JsValue) :
  deliverable r → ∃ b, serialise_responseBody r = Ret b.
Proof.
  intros Hd. destruct r; simpl in *; eauto.
  unfold Response_clone, Response_arrayBuffer. rewrite Hd. simpl. rewrite Hd. simpl. eauto.
Qed.

(** The serialisation returns bytes or throws; it makes no call. *)
Lemma serialise_returns_or_throws (r : JsValue) :
  (∃ b, serialise_responseBody r = Ret b) ∨ (∃ e, serialise_responseBody r = Throw e).
Proof.
  destruct r as [| | | | | | |resp]; simpl; eauto.
  unfold Response_clone, Response_arrayBuffer.
  destruct (resp_bodyUsed resp) eqn:E; simpl; [eauto|].
  rewrite E. simpl. eauto.
Qed.

Section HookFacts.

Variable srv : Server.
Variable paywallConfig : JsValue.

Lemma onBeforeHandle_unprotected ctx w :
  srv_requiresPayment srv (build_context ctx) = false →
  exec srv (onBeforeHandle paywallConfig ctx) w =
  (log (EvRequiresPayment (build_context ctx)) w, inl (ctx, None)).
Proof. intros H. unfold onBeforeHandle. simpl. by rewrite H. Qed.

Lemma onBeforeHandle_protected ctx w :
  srv_requiresPayment srv (build_context ctx) = true →
  srv_initialize srv = inl tt →
  let c := build_context ctx in
  let w' := {| plugin := {| initPromise := None; bazaarPromise := None |};
               trace := trace w ++ [EvRequiresPayment c]
                        ++ pending (initPromise (plugin w))
                        ++ pending (bazaarPromise (plugin w))
                        ++ [EvProcessHTTPRequest c paywallConfig] |} in
  exec srv (onBeforeHandle paywallConfig ctx) w =
  match srv_processHTTPRequest srv c paywallConfig with
  | inl no_payment_required => (w', inl (ctx, None))
  | inl (payment_error response) =>
      (w', inl (ctx, Some (payment_error_response response)))
  | inl (payment_verified payload requirements exts) =>
      (w', inl (with_x402PaymentContext
                  (Some {| paymentPayload := payload;
                           paymentRequirements := requirements;
                           declaredExtensions := exts;
                           context := c |}) ctx, None))
  | inr e => (w', inr e)
  end.
Proof.
  intros Hreq Hinit c w'. subst c w'.
  assert (Hq : ∀ q, settle_promise srv q = inl tt) by (by intros []).
  destruct w as [[ip bp] t]. unfold onBeforeHandle. simpl. rewrite Hreq. simpl.
  destruct ip as [q1|], bp as [q2|]; simpl; rewrite ?Hq; simpl; rewrite ?Hq; simpl;
    unfold log, with_plugin; simpl; rewrite <- ?app_assoc; simpl;
    destruct (srv_processHTTPRequest srv _ paywallConfig) as [[| |]|]; reflexivity.
Qed.

(** With a verified payment, a status below 400 and a serialised body [b],
    [onAfterHandle] makes the one settlement call and answers by its
    completion. *)
Lemma onAfterHandle_settles ctx pc b w :
  x402PaymentContext ctx = Some pc →
  status_below_400 (response ctx) →
  serialise_responseBody (response ctx) = Ret b →
  exec srv (onAfterHandle ctx) w =
  let tc := {| tc_request := context pc; tc_responseBody := b |} in
  let w1 := log (EvProcessSettlement (paymentPayload pc) (paymentRequirements pc)
                   (declaredExtensions pc) tc) w in
  match srv_processSettlement srv (paymentPayload pc) (paymentRequirements pc)
          (declaredExtensions pc) tc with
  | inl (settle_failure reason) =>
      (w1, inl (ctx, Some (settlement_failed_response reason)))
  | inl (settle_success h) =>
      (w1, inl (with_set_headers (merge_set_headers h (set_headers ctx)) ctx, None))
  | inr err =>
      (log (EvConsoleError "[x402-elysia] Settlement error:" err) w1,
       inl (ctx, Some (settlement_failed_response (error_message err))))
  end.
Proof.
  intros Hpc Hst Hb. apply checks_below_400 in Hst as [H1 H2].
  unfold onAfterHandle. rewrite Hpc, H1, H2, Hb. simpl.
  destruct (srv_processSettlement srv _ _ _ _) as [[h|reason]|err]; reflexivity.
Qed.

(** The serialisation stands before the [try]: what it throws leaves the
    hook, and nothing has been called by then. *)
Lemma onAfterHandle_throws ctx pc e w :
  x402PaymentContext ctx = Some pc →
  status_below_400 (response ctx) →
  serialise_responseBody (response ctx) = Throw e →
  exec srv (onAfterHandle ctx) w = (w, inr e).
Proof.
  intros Hpc Hst He. apply checks_below_400 in Hst as [H1 H2].
  unfold onAfterHandle. rewrite Hpc, H1, H2, He. reflexivity.
Qed.

(** Without a verified payment, or on a status of 400 or more, it returns
    at once. *)
Lemma onAfterHandle_skips ctx w :
  x402PaymentContext ctx = None ∨
  Response_status_ge_400 (response ctx) = true ∨ code_ge_400 (response ctx) = true →
  exec srv (onAfterHandle ctx) w = (w, inl (ctx, None)).
Proof.
  intros H. unfold onAfterHandle.
  destruct (x402PaymentContext ctx); [|done].
  destruct H as [|[->| ->]]; [done| done |].
  by destruct (Response_status_ge_400 _).
Qed.

(** The serialisation makes no call: it returns or throws where it stands. *)
Lemma serialise_pure r w :
  (∃ b, serialise_responseBody r = Ret b ∧
        exec srv (serialise_responseBody r) w = (w, inl b)) ∨
  (∃ e, exec srv (serialise_responseBody r) w = (w, inr e) ∧ ¬ deliverable r).
Proof.
  destruct r as [| | | | | | |resp]; simpl; eauto.
  unfold Response_clone, Response_arrayBuffer.
  destruct (resp_bodyUsed resp) eqn:E; simpl.
  - right. eexists. split; [done|]. intros Hd. simpl in Hd. congruence.
  - rewrite E. simpl. eauto.
Qed.

(** [onAfterHandle] leaves the plugin's closure alone, awaits nothing and
    verifies nothing. *)
Lemma onAfterHandle_quiet ctx w :
  ∃ t, (exec srv (onAfterHandle ctx) w).1 = {| plugin := plugin w; trace := trace w ++ t |} ∧
       awaits t = [] ∧ verify_calls t = [].
Proof.
  assert (Hnil : ∀ (w0 : World) (r : HookResult + Thrown),
    ∃ t, (w0, r).1 = {| plugin := plugin w0; trace := trace w0 ++ t |} ∧
         awaits t = [] ∧ verify_calls t = []).
  { intros [p0 t0] r. exists []. simpl. by rewrite app_nil_r. }
  unfold onAfterHandle.
  destruct (x402PaymentContext ctx) as [pc|]; [|apply Hnil].
  destruct (Response_status_ge_400 _); [apply Hnil|].
  destruct (code_ge_400 _); [apply Hnil|].
  run_bind.
  destruct (serialise_pure (response ctx) w) as [(b & _ & ->)|(e & -> & _)]; [|apply Hnil].
  rewrite exec_try_catch. simpl.
  destruct (srv_processSettlement srv _ _ _ _) as [[h|reason]|err]; simpl.
  - eexists [_]. unfold log; simpl. split; [reflexivity|]. by split.
  - eexists [_]. unfold log; simpl. split; [reflexivity|]. by split.
  - eexists [_; _]. unfold log; simpl. rewrite <- app_assoc. simpl.
    split; [reflexivity|]. by split.
Qed.

(** So does everything after [onBeforeHandle]. *)
Lemma after_beforeHandle_quiet before w :
  ∃ t, (exec srv (after_beforeHandle before) w).1
       = {| plugin := plugin w; trace := trace w ++ t |} ∧
       awaits t = [] ∧ verify_calls t = [].
Proof.
  unfold after_beforeHandle. destruct before.2 as [resp|]; simpl.
  - exists []. destruct w. simpl. by rewrite app_nil_r.
  - destruct (srv_route_handler srv before.1) as [[r h]|e]; simpl.
    + run_bind.
      pose proof (onAfterHandle_quiet (with_handler_output r h before.1)
                    (log (EvRouteHandler before.1) w)) as (t & Ht & Ha & Hv).
      exists (EvRouteHandler before.1 :: t).
      split; [|by split].
      match goal with
      | |- context [exec srv (onAfterHandle ?c) ?w0] =>
          destruct (exec srv (onAfterHandle c) w0) as [w2 [[ctx2 [resp|]]|e]]
      end; simpl in *; subst w2; simpl; by rewrite <- app_assoc.
    + exists [EvRouteHandler before.1]. done.
Qed.

End HookFacts.

#[local] Arguments lifecycle : simpl never.

(** * The claims *)

(** ** Settlement failure (C1) *)

(** C1.  When the payment context is populated, the handler's status is
    below 400 and the settlement call, made with the serialised body [b],
    gives an explicit failure or throws, [onAfterHandle] returns a
    [Response] of status 402 whose JSON body is
    [{ error: "Settlement failed", details }], [details] being the failure
    reason or the message of the exception.  The reply is built from
    [details] alone: the context is handed back untouched and nothing of
    the handler's result enters the reply. *)
Theorem settlement_failure_replaces_response
    (srv : Server) (ctx : Context) (pc : VerifiedPaymentContext)
    (b : Buffer) (w : World) (details : string) :
  x402PaymentContext ctx = Some pc →
  status_below_400 (response ctx) →
  serialise_responseBody (response ctx) = Ret b →
  (let tc := {| tc_request := context pc; tc_responseBody := b |} in
   srv_processSettlement srv (paymentPayload pc) (paymentRequirements pc)
     (declaredExtensions pc) tc = inl (settle_failure details) ∨
   ∃ err, srv_processSettlement srv (paymentPayload pc) (paymentRequirements pc)
            (declaredExtensions pc) tc = inr err ∧
          details = error_message err) →
  ∃ resp,
    (exec srv (onAfterHandle ctx) w).2 = inl (ctx, Some resp) ∧
    resp = settlement_failed_response details ∧
    resp_status resp = 402 ∧
    Headers_get (resp_headers resp) "content-type" = Some "application/json" ∧
    resp_body resp = Buffer_from (settlement_failed_json details).
Proof.
  intros Hpc Hst Hser Hfail.
  exists (settlement_failed_response details).
  rewrite (onAfterHandle_settles srv ctx pc b w Hpc Hst Hser). simpl.
  split; [|done].
  destruct Hfail as [-> | (err & -> & ->)]; reflexivity.
Qed.

Lemma settlement_failure_replaces_response_witness :
  ∃ resp,
    (exec (createMockHTTPServer mock_verified (inl (settle_failure "insufficient funds"))
             weather)
          (onAfterHandle (verified_ctx weather)) (start (mkPlugin None None))).2
      = inl (verified_ctx weather, Some resp) ∧
    resp = settlement_failed_response "insufficient funds" ∧
    resp_status resp = 402 ∧
    Headers_get (resp_headers resp) "content-type" = Some "application/json" ∧
    resp_body resp = Buffer_from (settlement_failed_json "insufficient funds").
Proof.
  apply (settlement_failure_replaces_response
           (createMockHTTPServer mock_verified (inl (settle_failure "insufficient funds"))
              weather)
           (verified_ctx weather) mock_paymentCtx
           (Buffer_from (default "" (JSON_stringify weather)))).
  - reflexivity.
  - intros s Hs. vm_compute in Hs. discriminate Hs.
  - reflexivity.
  - left. reflexivity.
Defined.

(** The same failure gives the same reply, whatever the handler returned. *)
Lemma settlement_failure_ignores_handler
    (srv1 srv2 : Server) (ctx1 ctx2 : Context) (pc1 pc2 : VerifiedPaymentContext)
    (b1 b2 : Buffer) (w1 w2 : World) (details : string) :
  x402PaymentContext ctx1 = Some pc1 → x402PaymentContext ctx2 = Some pc2 →
  status_below_400 (response ctx1) → status_below_400 (response ctx2) →
  serialise_responseBody (response ctx1) = Ret b1 →
  serialise_responseBody (response ctx2) = Ret b2 →
  srv_processSettlement srv1 (paymentPayload pc1) (paymentRequirements pc1)
    (declaredExtensions pc1) {| tc_request := context pc1; tc_responseBody := b1 |}
    = inl (settle_failure details) →
  srv_processSettlement srv2 (paymentPayload pc2) (paymentRequirements pc2)
    (declaredExtensions pc2) {| tc_request := context pc2; tc_responseBody := b2 |}
    = inl (settle_failure details) →
  ∃ resp,
    (exec srv1 (onAfterHandle ctx1) w1).2 = inl (ctx1, Some resp) ∧
    (exec srv2 (onAfterHandle ctx2) w2).2 = inl (ctx2, Some resp).
Proof.
  intros Hp1 Hp2 Hs1 Hs2 Hb1 Hb2 Hf1 Hf2.
  rewrite (onAfterHandle_settles srv1 ctx1 pc1 b1 w1 Hp1 Hs1 Hb1).
  rewrite (onAfterHandle_settles srv2 ctx2 pc2 b2 w2 Hp2 Hs2 Hb2).
  simpl. rewrite Hf1, Hf2. eauto.
Qed.

(** ** When settlement is attempted (C2) *)

(** C2, as the specification states it, at a handler result the hook
    can receive: the payment context is populated and the [Response] has
    status 200, yet no settlement call is made, because its body was
    already read and [clone()] throws before the call. *)
Lemma settlement_skipped_for_spent_response :
  let ctx := verified_ctx (JsResponse spent_response) in
  let out := exec paying_server (onAfterHandle ctx) (start (mkPlugin None None)) in
  is_Some (x402PaymentContext ctx) ∧
  status_below_400 (response ctx) ∧
  settle_calls (trace out.1) = [] ∧
  out.2 = inr (TypeError "Body already used").
Proof.
  split; [by eexists|]. split; [|by split].
  intros s Hs. injection Hs as <-. reflexivity.
Qed.

(** C2, amended.  [onAfterHandle] calls [processSettlement] if and only
    if the payment context is populated, neither status check (the
    [status] of a [Response], the [code] of the helper wrapper) reports
    400 or more, and the serialisation of the handler's result returns.
    When a check reports 400 or more, no settlement call is made and the
    hook returns nothing, leaving the context, hence the handler's
    response, as it was.  When the serialisation throws, no settlement
    call is made and the hook throws what the serialisation threw. *)
Theorem settlement_attempted_iff (srv : Server) (ctx : Context) (p : Plugin) :
  let out := exec srv (onAfterHandle ctx) (start p) in
  (settle_calls (trace out.1) ≠ [] ↔
     is_Some (x402PaymentContext ctx) ∧ status_below_400 (response ctx) ∧
     ∃ b, serialise_responseBody (response ctx) = Ret b) ∧
  ((∃ s, handler_status (response ctx) = Some s ∧ 400 ≤ s) →
     settle_calls (trace out.1) = [] ∧ out.2 = inl (ctx, None)) ∧
  (∀ e, is_Some (x402PaymentContext ctx) → status_below_400 (response ctx) →
        serialise_responseBody (response ctx) = Throw e →
        settle_calls (trace out.1) = [] ∧ out.2 = inr e).
Proof.
  intros out. subst out. split; [|split].
  - split.
    + intros Hcalls.
      destruct (x402PaymentContext ctx) as [pc|] eqn:Hpc.
      * assert (Hst : status_below_400 (response ctx)).
        { apply checks_below_400.
          destruct (Response_status_ge_400 (response ctx)) eqn:H1;
            [rewrite onAfterHandle_skips in Hcalls by eauto; done|].
          destruct (code_ge_400 (response ctx)) eqn:H2;
            [rewrite onAfterHandle_skips in Hcalls by eauto; done|]. done. }
        split; [eauto|]. split; [done|].
        destruct (serialise_returns_or_throws (response ctx)) as [Hb|[e He]]; [done|].
        rewrite (onAfterHandle_throws srv ctx pc e _ Hpc Hst He) in Hcalls. done.
      * rewrite onAfterHandle_skips in Hcalls by eauto. done.
    + intros ([pc Hpc] & Hst & b & Hb).
      rewrite (onAfterHandle_settles srv ctx pc b _ Hpc Hst Hb). simpl.
      destruct (srv_processSettlement srv _ _ _ _) as [[h|reason]|err]; done.
  - intros Hge. apply checks_at_least_400 in Hge.
    rewrite onAfterHandle_skips by eauto. done.
  - intros e [pc Hpc] Hst He.
    rewrite (onAfterHandle_throws srv ctx pc e _ Hpc Hst He). done.
Qed.

Lemma settlement_attempted_iff_witness :
  let srv := createMockHTTPServer mock_verified (inl (settle_success receipt_headers))
               not_found in
  let out := exec srv (onAfterHandle (verified_ctx not_found)) (start (mkPlugin None None)) in
  settle_calls (trace out.1) = [] ∧ out.2 = inl (verified_ctx not_found, None).
Proof.
  apply (settlement_attempted_iff
           (createMockHTTPServer mock_verified (inl (settle_success receipt_headers))
              not_found)
           (verified_ctx not_found) (mkPlugin None None)).
  exists 404. split; [reflexivity|lia].
Defined.

(** ** The header selector (C3) *)

(** A non-empty current header wins. *)
Lemma select_current (a : ElysiaAdapter) (s : string) :
  Adapter.getHeader a "payment-signature" = Some s → s ≠ "" →
  select_paymentHeader a = Some s.
Proof.
  intros H Hs. unfold select_paymentHeader. rewrite H. simpl.
  by destruct s.
Qed.

(** Without one, the legacy header is surfaced as it stands. *)
Lemma select_legacy (a : ElysiaAdapter) :
  Adapter.getHeader a "payment-signature" = None ∨
  Adapter.getHeader a "payment-signature" = Some "" →
  select_paymentHeader a = Adapter.getHeader a "x-payment".
Proof. unfold select_paymentHeader. by intros [-> | ->]. Qed.

(** C3, at the input where the code departs from it.  A request whose only
    payment header is an empty [x-payment] gets the empty string as its
    [paymentHeader], while a request with no payment header, and one with
    an empty [payment-signature], get [undefined]: the empty legacy value
    is not treated as absence. *)
Theorem empty_legacy_header_is_forwarded :
  select_paymentHeader (adapter_with {[ "x-payment" := "" ]}) = Some "" ∧
  select_paymentHeader (adapter_with ∅) = None ∧
  select_paymentHeader (adapter_with {[ "payment-signature" := "" ]}) = None.
Proof. repeat split; reflexivity. Qed.

(** ** The payment-error response (C4) *)

(** C4 as stated fails: a content type provided by the outcome is not
    copied onto the response. *)
Lemma payment_error_content_type_not_copied :
  ("Content-Type", "text/plain") ∈ instr_headers custom_content_type ∧
  Headers_get (resp_headers (payment_error_response custom_content_type)) "Content-Type"
    = Some "application/json" ∧
  Headers_get (resp_headers (payment_error_response custom_content_type)) "Content-Type"
    ≠ Some "text/plain".
Proof. split; [left|]. split; [reflexivity|]. vm_compute. discriminate. Qed.

(** C4, amended.  The response built for a payment error has the outcome's
    status; its content type is [text/html; charset=utf-8] when the
    outcome is HTML-flagged and [application/json] otherwise, whatever
    content type the outcome provides; and every other header of the
    outcome is copied, under its lower-cased name, the last one winning
    among names equal up to case. *)
Theorem payment_error_response_built (r : HTTPResponseInstructions) :
  let out := payment_error_response r in
  resp_status out = instr_status r ∧
  Headers_get (resp_headers out) "content-type"
    = Some (if instr_isHtml r then "text/html; charset=utf-8" else "application/json") ∧
  ∀ (before : StringRecord) (k v : string) (after : StringRecord),
    instr_headers r = before ++ (k, v) :: after →
    toLowerCase k ≠ "content-type" →
    (∀ kv, kv ∈ after → toLowerCase kv.1 ≠ toLowerCase k) →
    Headers_get (resp_headers out) k = Some v.
Proof.
  intros out. subst out. unfold payment_error_response.
  assert (Hcopy : ∀ before k v after,
    instr_headers r = before ++ (k, v) :: after →
    (∀ kv, kv ∈ after → toLowerCase kv.1 ≠ toLowerCase k) →
    Headers_of (instr_headers r) !! toLowerCase k = Some v).
  { intros before k v after Hh Hafter.
    rewrite Hh, Headers_of_assign. by apply assign_all_last. }
  destruct (instr_isHtml r); simpl; unfold Headers_get, Headers_set.
  - split; [done|]. split; [apply lookup_insert_eq|].
    intros before k v after Hh Hk Hafter.
    rewrite lookup_insert_ne; [by eapply Hcopy|]. intros E. apply Hk. by rewrite <- E.
  - split; [done|]. split; [apply lookup_insert_eq|].
    intros before k v after Hh Hk Hafter.
    rewrite lookup_insert_ne; [by eapply Hcopy|]. intros E. apply Hk. by rewrite <- E.
Qed.

Lemma payment_error_response_built_witness :
  Headers_get (resp_headers (payment_error_response custom_headers_error))
    "x-custom-header" = Some "custom-value".
Proof.
  apply (proj2 (proj2 (payment_error_response_built custom_headers_error))
           [("payment-required", "encoded-req")] "x-custom-header" "custom-value"
           [("x-another-header", "another-value")]).
  - reflexivity.
  - vm_compute. discriminate.
  - intros kv Hin. apply list_elem_of_singleton in Hin. subst kv.
    vm_compute. discriminate.
Defined.

(** ** Serialisation of the handler's result (C5, C10) *)

(** C5.  The serialised [responseBody] is: for a [Response] whose body
    has not been read, the bytes of its body, read from a clone, so that
    the [Response] in the context is the same unread one after the hook;
    for a string, its bytes; for a non-null object, the bytes of its
    [JSON.stringify] text; for [null] and [undefined], no bytes. *)
Theorem responseBody_by_shape (srv : Server) :
  (∀ resp, resp_bodyUsed resp = false →
     serialise_responseBody (JsResponse resp) = Ret (resp_body resp) ∧
     ∀ ctx w res,
       response ctx = JsResponse resp →
       (exec srv (onAfterHandle ctx) w).2 = inl res →
       response res.1 = JsResponse resp) ∧
  (∀ s, serialise_responseBody (JsString s) = Ret (Buffer_from s)) ∧
  (∀ r, instanceof_Response r = false → is_null r = false → typeof r = "object" →
     ∃ json, JSON_stringify r = Some json ∧
             serialise_responseBody r = Ret (Buffer_from json)) ∧
  (∀ r, is_null r = true ∨ is_undefined r = true →
     serialise_responseBody r = Ret []).
Proof.
  split; [|split; [|split]].
  - intros resp H. split.
    { simpl. unfold Response_clone, Response_arrayBuffer. rewrite H. simpl. by rewrite H. }
    intros ctx w res Hr Hrun. rewrite <- Hr. clear Hr.
    unfold onAfterHandle in Hrun.
    destruct (x402PaymentContext ctx) as [pc|]; [|by simplify_eq/=].
    destruct (Response_status_ge_400 _); [by simplify_eq/=|].
    destruct (code_ge_400 _); [by simplify_eq/=|].
    unfold mbind, Hook_mbind in Hrun. rewrite exec_Hook_bind in Hrun.
    destruct (serialise_pure srv (response ctx) w) as [(b & _ & Hb)|(e & Hb & _)];
      rewrite Hb in Hrun; [|done].
    rewrite exec_try_catch in Hrun. simpl in Hrun.
    destruct (srv_processSettlement srv _ _ _ _) as [[h|reason]|err];
      simpl in Hrun; by simplify_eq.
  - done.
  - intros r Hr Hn Ht. destruct r; try discriminate; simpl; eauto.
  - intros r [H|H]; by destruct r.
Qed.

Lemma responseBody_by_shape_witness :
  serialise_responseBody
    (JsResponse (Response_new (JsString "ok") 200 ∅)) = Ret (Buffer_from "ok") ∧
  (∃ json, JSON_stringify weather = Some json ∧
           serialise_responseBody weather = Ret (Buffer_from json)) ∧
  serialise_responseBody JsNull = Ret [].
Proof.
  pose proof (responseBody_by_shape unprotected_server) as (H1 & _ & H3 & H4).
  split; [|split].
  - apply (H1 (Response_new (JsString "ok") 200 ∅)). reflexivity.
  - apply (H3 weather); reflexivity.
  - apply (H4 JsNull). left. reflexivity.
Defined.

(** C10.  With a verified payment, a handler result that is not a
    [Response], not a string and not a non-null object ([null],
    [undefined], a boolean, a number) is serialised to the empty buffer;
    [onAfterHandle] then makes its settlement call with that empty body,
    and returns without throwing. *)
Theorem fallback_shapes_settle_with_empty_body
    (srv : Server) (ctx : Context) (pc : VerifiedPaymentContext) (w : World) :
  x402PaymentContext ctx = Some pc →
  instanceof_Response (response ctx) = false →
  typeof (response ctx) ≠ "string" →
  ¬ (is_null (response ctx) = false ∧ is_undefined (response ctx) = false ∧
     typeof (response ctx) = "object") →
  let out := exec srv (onAfterHandle ctx) w in
  serialise_responseBody (response ctx) = Ret (Buffer_alloc 0) ∧
  settle_calls (trace out.1) = settle_calls (trace w) ++ [settle_args pc []] ∧
  ∃ res, out.2 = inl res.
Proof.
  intros Hpc Hresp Hstr Hobj out. subst out.
  assert (Hser : serialise_responseBody (response ctx) = Ret []).
  { destruct (response ctx); simpl in *; try done; by destruct Hobj. }
  assert (Hst : status_below_400 (response ctx)).
  { intros s Hs. destruct (response ctx); simpl in *; try done; by destruct Hobj. }
  split; [done|].
  rewrite (onAfterHandle_settles srv ctx pc [] w Hpc Hst Hser). simpl.
  destruct (srv_processSettlement srv _ _ _ _) as [[h|reason]|err]; simpl;
    rewrite ?settle_calls_app; simpl; rewrite ?app_nil_r; eauto.
Qed.

Lemma fallback_shapes_settle_with_empty_body_witness :
  let srv := createMockHTTPServer mock_verified (inl (settle_success receipt_headers))
               (JsNumber 42) in
  let out := exec srv (onAfterHandle (verified_ctx (JsNumber 42)))
               (start (mkPlugin None None)) in
  serialise_responseBody (JsNumber 42) = Ret (Buffer_alloc 0) ∧
  settle_calls (trace out.1) = [settle_args mock_paymentCtx []] ∧
  ∃ res, out.2 = inl res.
Proof.
  apply (fallback_shapes_settle_with_empty_body
           (createMockHTTPServer mock_verified (inl (settle_success receipt_headers))
              (JsNumber 42))
           (verified_ctx (JsNumber 42)) mock_paymentCtx (start (mkPlugin None None))).
  - reflexivity.
  - reflexivity.
  - vm_compute. discriminate.
  - vm_compute. intros (_ & _ & H). discriminate H.
Defined.

(** ** Unprotected routes (C6) *)

(** C6.  On a route the classifier reports as not requiring payment, the
    whole lifecycle makes two calls, [requiresPayment] and the route
    handler: no verification, no settlement, no [await] of either promise;
    the plugin's closure is untouched and the handler's result goes out as
    it is. *)
Theorem unprotected_route_passes_through
    (srv : Server) (paywallConfig : JsValue) (req : Request) (body : JsValue)
    (p : Plugin) :
  srv_requiresPayment srv (build_context (derive req body)) = false →
  let out := exec srv (lifecycle paywallConfig req body) (start p) in
  trace out.1 = [EvRequiresPayment (build_context (derive req body));
                 EvRouteHandler (derive req body)] ∧
  verify_calls (trace out.1) = [] ∧
  settle_calls (trace out.1) = [] ∧
  awaits (trace out.1) = [] ∧
  plugin out.1 = p ∧
  out.2 = match srv_route_handler srv (derive req body) with
          | inl (r, h) => inl (Handled r h)
          | inr e => inr e
          end.
Proof.
  intros Hreq out. subst out. unfold lifecycle.
  run_bind. rewrite onBeforeHandle_unprotected by done.
  unfold after_beforeHandle. simpl.
  destruct (srv_route_handler srv (derive req body)) as [[r h]|e]; simpl; done.
Qed.

Lemma unprotected_route_passes_through_witness :
  let req := request_with ∅ in
  let p := mkPlugin (Some initialize_promise) None in
  let out := exec unprotected_server (lifecycle JsUndefined req JsUndefined) (start p) in
  trace out.1 = [EvRequiresPayment (build_context (derive req JsUndefined));
                 EvRouteHandler (derive req JsUndefined)] ∧
  verify_calls (trace out.1) = [] ∧
  settle_calls (trace out.1) = [] ∧
  awaits (trace out.1) = [] ∧
  plugin out.1 = p ∧
  out.2 = inl (Handled (JsString "ok") ∅).
Proof.
  apply (unprotected_route_passes_through unprotected_server JsUndefined
           (request_with ∅) JsUndefined (mkPlugin (Some initialize_promise) None)).
  reflexivity.
Defined.

(** ** One settlement call per verified request (C7) *)

(** C7, as the specification states it, at a request it covers: the route
    is protected, the payment is verified and the handler returns a
    [Response] of status 200, yet settlement is called zero times and the
    request fails, because the body of that [Response] was already read. *)
Lemma spent_response_is_never_settled :
  let srv := createMockHTTPServer mock_verified (inl (settle_success receipt_headers))
               (JsResponse spent_response) in
  let c := build_context (derive paid_request JsUndefined) in
  let out := exec srv (lifecycle JsUndefined paid_request JsUndefined) (start fresh_plugin) in
  srv_requiresPayment srv c = true ∧
  srv_processHTTPRequest srv c JsUndefined
    = inl (payment_verified MOCK_PAYMENT_PAYLOAD MOCK_PAYMENT_REQUIREMENTS JsUndefined) ∧
  verify_calls (trace out.1) = [(c, JsUndefined)] ∧
  handler_status (JsResponse spent_response) = Some 200 ∧
  settle_calls (trace out.1) = [] ∧
  out.2 = inr (TypeError "Body already used").
Proof. repeat split; reflexivity. Qed.

(** C7, amended.  On a protected route, with the initialisation resolving,
    a verified payment and a handler result [r] whose status lies in
    [200, 399]: when the serialisation of [r] returns the bytes [b], the
    lifecycle calls [processSettlement] exactly once, with the verified
    payload, the requirements, the declared extensions, and a transport
    context made of the request context and [b]; when the serialisation
    throws, [processSettlement] is not called and the request fails with
    what the serialisation threw. *)
Theorem verified_request_settles_once
    (srv : Server) (paywallConfig : JsValue) (req : Request) (body : JsValue)
    (p : Plugin) (payload requirements exts r : JsValue)
    (h : gmap string string) :
  let ctx := derive req body in
  let c := build_context ctx in
  let pc := {| paymentPayload := payload; paymentRequirements := requirements;
               declaredExtensions := exts; context := c |} in
  srv_requiresPayment srv c = true →
  srv_initialize srv = inl tt →
  srv_processHTTPRequest srv c paywallConfig
    = inl (payment_verified payload requirements exts) →
  srv_route_handler srv (with_x402PaymentContext (Some pc) ctx) = inl (r, h) →
  (∀ s, handler_status r = Some s → 200 ≤ s ≤ 399) →
  let out := exec srv (lifecycle paywallConfig req body) (start p) in
  (∀ b, serialise_responseBody r = Ret b →
        settle_calls (trace out.1)
        = [(payload, requirements, exts, {| tc_request := c; tc_responseBody := b |})]) ∧
  (∀ e, serialise_responseBody r = Throw e →
        settle_calls (trace out.1) = [] ∧ out.2 = inr e).
Proof.
  intros ctx c pc Hreq Hinit Hver Hhandler Hst out. subst out.
  assert (Hbelow : status_below_400 r).
  { intros s Hs. apply Hst in Hs. lia. }
  unfold lifecycle.
  run_bind. rewrite onBeforeHandle_protected by done. fold ctx c. rewrite Hver.
  unfold after_beforeHandle. simpl. fold pc. rewrite Hhandler. simpl.
  run_bind. split.
  - intros b Hser.
    rewrite (onAfterHandle_settles srv _ pc b); [|done|done|done].
    simpl. destruct (srv_processSettlement srv _ _ _ _) as [[hs|reason]|err]; simpl;
      rewrite ?settle_calls_app; simpl; rewrite ?settle_calls_app; simpl;
      by destruct (initPromise p), (bazaarPromise p).
  - intros e Hser.
    rewrite (onAfterHandle_throws srv _ pc e); [|done|done|done].
    simpl. rewrite ?settle_calls_app; simpl; rewrite ?settle_calls_app; simpl.
    by destruct (initPromise p), (bazaarPromise p).
Qed.

Lemma verified_request_settles_once_witness :
  let srv := createMockHTTPServer mock_verified (inl (settle_success receipt_headers))
               weather in
  settle_calls
    (trace (exec srv (lifecycle JsUndefined paid_request JsUndefined)
              (start (mkPlugin (Some initialize_promise) None))).1)
  = [(MOCK_PAYMENT_PAYLOAD, MOCK_PAYMENT_REQUIREMENTS, JsUndefined,
      {| tc_request := build_context (derive paid_request JsUndefined);
         tc_responseBody := Buffer_from (default "" (JSON_stringify weather)) |})].
Proof.
  refine (proj1 (verified_request_settles_once
           (createMockHTTPServer mock_verified (inl (settle_success receipt_headers))
              weather)
           JsUndefined paid_request JsUndefined
           (mkPlugin (Some initialize_promise) None)
           MOCK_PAYMENT_PAYLOAD MOCK_PAYMENT_REQUIREMENTS JsUndefined weather ∅
           _ _ _ _ _) _ _).
  - reflexivity.
  - reflexivity.
  - reflexivity.
  - reflexivity.
  - intros s Hs. discriminate Hs.
  - reflexivity.
Defined.

(** ** Settlement success (C8) *)

(** C8.  When the settlement call succeeds with the header record [h],
    [onAfterHandle] returns nothing, so the handler's response goes out
    with its status and body; [ctx.response] is unchanged; every header
    of [h] is in [ctx.set.headers] afterwards; and every header the
    handler had set under a name that [h] does not use is kept. *)
Theorem settlement_success_merges_headers
    (srv : Server) (ctx : Context) (pc : VerifiedPaymentContext)
    (b : Buffer) (w : World) (h : StringRecord) :
  x402PaymentContext ctx = Some pc →
  status_below_400 (response ctx) →
  serialise_responseBody (response ctx) = Ret b →
  srv_processSettlement srv (paymentPayload pc) (paymentRequirements pc)
    (declaredExtensions pc) {| tc_request := context pc; tc_responseBody := b |}
    = inl (settle_success h) →
  NoDup h.*1 →
  ∃ ctx',
    (exec srv (onAfterHandle ctx) w).2 = inl (ctx', None) ∧
    response ctx' = response ctx ∧
    (∀ k v, (k, v) ∈ h → set_headers ctx' !! k = Some v) ∧
    (∀ k, k ∉ h.*1 → set_headers ctx' !! k = set_headers ctx !! k).
Proof.
  intros Hpc Hst Hser Hok Hnd.
  rewrite (onAfterHandle_settles srv ctx pc b w Hpc Hst Hser). simpl. rewrite Hok.
  eexists. split; [reflexivity|]. split; [done|]. simpl.
  rewrite merge_set_headers_assign. split.
  - intros k v Hin. apply list_elem_of_split in Hin as (h1 & h2 & ->).
    apply (assign_all_last id). intros kv Hkv E. simpl in E.
    rewrite fmap_app, fmap_cons in Hnd. apply NoDup_app in Hnd as (_ & _ & Hnd).
    apply NoDup_cons in Hnd as [Hnd _]. apply Hnd. simpl. rewrite <- E.
    apply list_elem_of_fmap. eauto.
  - intros k Hk. apply assign_all_other. intros kv Hkv E. apply Hk.
    apply list_elem_of_fmap. exists kv. by rewrite <- E.
Qed.

Lemma settlement_success_merges_headers_witness :
  let srv := createMockHTTPServer mock_verified (inl (settle_success receipt_headers))
               weather in
  ∃ ctx',
    (exec srv (onAfterHandle (verified_ctx weather)) (start (mkPlugin None None))).2
      = inl (ctx', None) ∧
    response ctx' = weather ∧
    (∀ k v, (k, v) ∈ receipt_headers → set_headers ctx' !! k = Some v) ∧
    (∀ k, k ∉ receipt_headers.*1 → set_headers ctx' !! k = (∅ : gmap string string) !! k).
Proof.
  apply (settlement_success_merges_headers
           (createMockHTTPServer mock_verified (inl (settle_success receipt_headers))
              weather)
           (verified_ctx weather) mock_paymentCtx
           (Buffer_from (default "" (JSON_stringify weather)))
           (start (mkPlugin None None)) receipt_headers).
  - reflexivity.
  - intros s Hs. vm_compute in Hs. discriminate Hs.
  - reflexivity.
  - reflexivity.
  - apply NoDup_cons. split; [apply not_elem_of_nil|apply NoDup_nil_2].
Defined.

(** ** The facilitator initialiser across requests (C9) *)

Lemma paymentMiddlewareFromHTTPServer_slots_ok routes hasExt sync :
  slots_ok (paymentMiddlewareFromHTTPServer routes hasExt sync).
Proof.
  unfold slots_ok, paymentMiddlewareFromHTTPServer. simpl.
  split; [by destruct sync|]. by destruct (_ && _).
Qed.

Section Serving.

Variable srv : Server.
Variable paywallConfig : JsValue.
Hypothesis initialize_resolves : srv_initialize srv = inl tt.

(** What one request does to the closure and which promises it awaits:
    a protected request awaits whatever the two slots hold and leaves them
    cleared; an unprotected one awaits nothing and changes nothing. *)
Lemma lifecycle_summary req body p :
  let w := (exec srv (lifecycle paywallConfig req body) (start p)).1 in
  if srv_requiresPayment srv (build_context (derive req body))
  then plugin w = {| initPromise := None; bazaarPromise := None |} ∧
       awaits (trace w) = option_list (initPromise p) ++ option_list (bazaarPromise p)
  else plugin w = p ∧ awaits (trace w) = [].
Proof.
  intros w. subst w.
  destruct (srv_requiresPayment srv _) eqn:Hreq.
  - unfold lifecycle. run_bind. rewrite onBeforeHandle_protected by done.
    set (w' := {| plugin := _; trace := _ |}).
    assert (Hquiet : ∀ before,
      plugin (exec srv (after_beforeHandle before) w').1
        = {| initPromise := None; bazaarPromise := None |} ∧
      awaits (trace (exec srv (after_beforeHandle before) w').1)
        = option_list (initPromise p) ++ option_list (bazaarPromise p)).
    { intros before.
      destruct (after_beforeHandle_quiet srv before w') as (t & -> & Ha & _).
      subst w'. simpl. rewrite !awaits_app, !awaits_pending, Ha. simpl.
      by rewrite !app_nil_r. }
    destruct (srv_processHTTPRequest srv _ _) as [[| |]|]; try apply Hquiet.
    subst w'. simpl. rewrite !awaits_app, !awaits_pending. simpl.
    by rewrite app_nil_r.
  - unfold lifecycle. run_bind. rewrite onBeforeHandle_unprotected by done.
    destruct (after_beforeHandle_quiet srv (derive req body, None)
                (log (EvRequiresPayment (build_context (derive req body))) (start p)))
      as (t & -> & Ha & _).
    simpl. by rewrite Ha.
Qed.

Lemma serve_cons rq rest p :
  serve srv paywallConfig (rq :: rest) p =
  let w := (exec srv (lifecycle paywallConfig rq.1 rq.2) (start p)).1 in
  (trace w, plugin w) :: serve srv paywallConfig rest (plugin w).
Proof. reflexivity. Qed.

(** Once [initPromise] is [null] it stays [null], and no request awaits
    the initialisation again. *)
Lemma serve_cleared requests p :
  slots_ok p → initPromise p = None →
  ∀ run, run ∈ serve srv paywallConfig requests p →
    initPromise run.2 = None ∧ initialize_promise ∉ awaits run.1.
Proof.
  revert p. induction requests as [|rq rest IH]; intros p Hok Hnone run Hin.
  - by apply elem_of_nil in Hin.
  - rewrite serve_cons in Hin. cbv zeta in Hin.
    pose proof (lifecycle_summary rq.1 rq.2 p) as Hsum. cbv zeta in Hsum.
    remember (exec srv (lifecycle paywallConfig rq.1 rq.2) (start p)).1 as w eqn:Hw.
    clear Hw.
    assert (Hw : initPromise (plugin w) = None ∧ slots_ok (plugin w) ∧
                 initialize_promise ∉ awaits (trace w)).
    { destruct (srv_requiresPayment srv _); destruct Hsum as [-> ->].
      - split; [done|]. split; [done|]. rewrite Hnone. simpl.
        destruct Hok as [_ Hb]. destruct (bazaarPromise p) as [[]|]; simpl.
        + done.
        + intros H. apply list_elem_of_singleton in H. done.
        + apply not_elem_of_nil.
      - split; [done|]. split; [done|]. apply not_elem_of_nil. }
    destruct Hw as (Hw1 & Hw2 & Hw3).
    apply elem_of_cons in Hin as [-> | Hin]; [by split|]. by apply (IH (plugin w)).
Qed.

End Serving.

(** C9.  A plugin instance serves a sequence of requests, its
    initialisation promise resolving.  A request that awaits the promise
    is a protected one; it leaves [initPromise] cleared; and every later
    request leaves it cleared and does not await it. *)
Theorem init_promise_awaited_once
    (srv : Server) (paywallConfig : JsValue) (routes : RoutesConfig)
    (hasExtension_bazaar syncFacilitatorOnStart : bool)
    (requests : list (Request * JsValue)) :
  srv_initialize srv = inl tt →
  let runs := serve srv paywallConfig requests
                (paymentMiddlewareFromHTTPServer routes hasExtension_bazaar
                   syncFacilitatorOnStart) in
  ∀ i rq run,
    requests !! i = Some rq → runs !! i = Some run →
    initialize_promise ∈ awaits run.1 →
    srv_requiresPayment srv (build_context (derive rq.1 rq.2)) = true ∧
    initPromise run.2 = None ∧
    ∀ j later, (i < j)%nat → runs !! j = Some later →
      initPromise later.2 = None ∧ initialize_promise ∉ awaits later.1.
Proof.
  intros Hinit runs. subst runs.
  pose proof (paymentMiddlewareFromHTTPServer_slots_ok routes hasExtension_bazaar
                syncFacilitatorOnStart) as Hok.
  generalize dependent
    (paymentMiddlewareFromHTTPServer routes hasExtension_bazaar syncFacilitatorOnStart).
  induction requests as [|rq0 rest IH]; intros p Hok i rq run Hrq Hrun Haw; [done|].
  rewrite serve_cons in Hrun |- *. cbv zeta in Hrun |- *.
  pose proof (lifecycle_summary srv paywallConfig Hinit rq0.1 rq0.2 p) as Hsum.
  cbv zeta in Hsum.
  remember (exec srv (lifecycle paywallConfig rq0.1 rq0.2) (start p)).1 as w eqn:Hw.
  clear Hw.
  assert (Hok' : slots_ok (plugin w)).
  { destruct (srv_requiresPayment srv _); destruct Hsum as [-> _]; done. }
  destruct i as [|i]; simpl in Hrq, Hrun.
  - simplify_eq. simpl in Haw |- *.
    destruct (srv_requiresPayment srv _); destruct Hsum as [Hp Ht].
    + split; [done|]. split; [by rewrite Hp|].
      intros [|j] later Hlt Hlater; [lia|]. simpl in Hlater.
      apply (serve_cleared srv paywallConfig Hinit rest (plugin w));
        [done|by rewrite Hp|].
      by eapply list_elem_of_lookup_2.
    + rewrite Ht in Haw. by apply elem_of_nil in Haw.
  - destruct (IH (plugin w) Hok' i rq run Hrq Hrun Haw) as (H1 & H2 & H3).
    split; [done|]. split; [done|].
    intros [|j] later Hlt Hlater; [lia|]. simpl in Hlater.
    apply (H3 j); [lia|done].
Qed.

Lemma init_promise_awaited_once_witness :
  let srv := createMockHTTPServer mock_verified (inl (settle_success receipt_headers))
               weather in
  let requests := [(paid_request, JsUndefined); (paid_request, JsUndefined)] in
  let runs := serve srv JsUndefined requests
                (paymentMiddlewareFromHTTPServer (MultiRoute []) true true) in
  ∃ first, runs !! 0%nat = Some first ∧
    initialize_promise ∈ awaits first.1 ∧
    initPromise first.2 = None ∧
    ∀ j later, (0 < j)%nat → runs !! j = Some later →
      initPromise later.2 = None ∧ initialize_promise ∉ awaits later.1.
Proof.
  intros srv requests runs.
  assert (Hfirst : initialize_promise ∈ awaits (trace (exec srv
            (lifecycle JsUndefined paid_request JsUndefined)
            (start (paymentMiddlewareFromHTTPServer (MultiRoute []) true true))).1)).
  { vm_compute. left. }
  eexists. split; [reflexivity|]. split; [exact Hfirst|].
  apply (init_promise_awaited_once srv JsUndefined (MultiRoute []) true true requests
           eq_refl 0%nat (paid_request, JsUndefined) _ eq_refl eq_refl Hfirst).
Defined.

(** * Concurrent requests

    The same hooks, with requests interleaved at their suspension points. *)

Lemma quiet_skips_init {A} (h : Hook A) : quiet h → skips_init h.
Proof.
  induction h as [a|e|X c k IH]; simpl; [done..|].
  intros [Hc Hk]. split; [by destruct c|]. intros r _. apply IH, Hk.
Qed.

Lemma quiet_bind {A B} (m : Hook A) (f : A → Hook B) :
  quiet m → (∀ a, quiet (f a)) → quiet (Hook_bind f m).
Proof.
  intros Hm Hf. induction m as [a|e|X c k IH]; simpl in *; [done..|].
  destruct Hm as [Hc Hk]. split; [done|]. intros r. apply IH, Hk.
Qed.

Lemma quiet_try_catch {A} (m : Hook A) (h : Thrown → Hook A) :
  quiet m → (∀ e, quiet (h e)) → quiet (try_catch m h).
Proof.
  intros Hm Hh. induction m as [a|e|X c k IH]; simpl in *; [done..|].
  destruct Hm as [Hc Hk]. split; [done|]. intros r. apply IH, Hk.
Qed.

Lemma skips_init_bind {A B} (m : Hook A) (f : A → Hook B) :
  skips_init m → (∀ a, skips_init (f a)) → skips_init (Hook_bind f m).
Proof.
  intros Hm Hf. induction m as [a|e|X c k IH]; simpl in *; [done..|].
  destruct Hm as [Hc Hk]. split; [done|]. intros r Hr. by apply IH, Hk.
Qed.

Lemma quiet_call {X} (c : Call X) : touches_closure c = false → quiet (call c).
Proof. intros Hc. simpl. split; [done|]. by intros [x|e]. Qed.

Lemma quiet_serialise r : quiet (serialise_responseBody r).
Proof.
  destruct r as [| | | | | | |resp]; simpl; try done.
  unfold Response_clone, Response_arrayBuffer.
  destruct (resp_bodyUsed resp) eqn:E; simpl; [done|]. by rewrite E.
Qed.

Lemma quiet_onAfterHandle ctx : quiet (onAfterHandle ctx).
Proof.
  unfold onAfterHandle.
  destruct (x402PaymentContext ctx) as [pc|]; [|done].
  destruct (Response_status_ge_400 _); [done|].
  destruct (code_ge_400 _); [done|].
  apply quiet_bind; [apply quiet_serialise|]. intros b.
  apply quiet_try_catch.
  - apply quiet_bind; [by apply quiet_call|]. by intros [h|reason].
  - intros e. apply quiet_bind; [by apply quiet_call|]. done.
Qed.

Lemma quiet_after_beforeHandle before : quiet (after_beforeHandle before).
Proof.
  unfold after_beforeHandle. destruct before.2; [done|].
  apply quiet_bind; [by apply quiet_call|]. intros out.
  apply quiet_bind; [apply quiet_onAfterHandle|]. intros after. by destruct after.2.
Qed.

Lemma skips_init_lifecycle cfg req body : skips_init (lifecycle cfg req body).
Proof.
  unfold lifecycle. apply skips_init_bind; [|intros; apply quiet_skips_init, quiet_after_beforeHandle].
  unfold onBeforeHandle. simpl. split; [done|]. intros [[]|e] _; simpl; [|done..].
  split; [done|]. intros r ->. simpl.
  split; [done|]. intros [[[]|]|e] Hr; simpl; try done.
  - split; [done|]. intros [[]|e] _; simpl; [|done].
    split; [done|]. intros [[]|e] _; simpl; [|done].
    split; [done|]. intros [[]|e] _; simpl; done.
  - split; [done|]. intros [[]|e] _; simpl; done.
Qed.

Section Flights.

Variable srv : Server.
Variable paywallConfig : JsValue.

Lemma perform_Cleared {X} (c : Call X) w :
  Cleared (plugin w) → Cleared (plugin (perform srv c w).1).
Proof. intros [H1 H2]. by destruct c. Qed.

Lemma perform_cleared_answer {X} (c : Call X) w :
  Cleared (plugin w) → cleared_answer c (perform srv c w).2.
Proof.
  intros [H1 H2]. destruct c; simpl; try done.
  - by rewrite H1.
  - intros E. by simplify_eq.
Qed.

Lemma perform_trace {X} (c : Call X) w :
  ∃ t, trace (perform srv c w).1 = trace w ++ t ∧
       (awaits_init c = false → initialize_promise ∉ awaits t) ∧
       (touches_closure c = false ∨ suspends c = false → awaits t = []).
Proof.
  destruct c; simpl;
    try (exists []; rewrite app_nil_r; split; [done|]; split; [intros; apply not_elem_of_nil|done]);
    try (eexists [_]; split; [done|]; split; [intros; apply not_elem_of_nil|done]).
  eexists [_]; split; [done|]. split.
  - destruct p; [done|]. intros _ H. apply list_elem_of_singleton in H. done.
  - by intros [|].
Qed.

Lemma run_sync_trace {A} (h : Hook A) w :
  ∃ t, trace (run_sync srv h w).1 = trace w ++ t ∧ awaits t = [].
Proof.
  revert w. induction h as [a|e|X c k IH]; intros w; simpl;
    try (exists []; by rewrite app_nil_r).
  destruct (suspends c) eqn:Hs; [exists []; by rewrite app_nil_r|].
  destruct (perform_trace c w) as (t1 & Ht1 & _ & Ha1).
  destruct (IH (perform srv c w).2 (perform srv c w).1) as (t2 & Ht2 & Ha2).
  exists (t1 ++ t2). rewrite Ht2, Ht1, app_assoc. split; [done|].
  rewrite awaits_app, Ha1, Ha2; [done|by right].
Qed.

Lemma run_sync_Cleared {A} (h : Hook A) w :
  Cleared (plugin w) → Cleared (plugin (run_sync srv h w).1).
Proof.
  revert w. induction h as [a|e|X c k IH]; intros w Hw; simpl; [done..|].
  destruct (suspends c); [done|]. by apply IH, perform_Cleared.
Qed.

Lemma run_sync_skips_init {A} (h : Hook A) w :
  Cleared (plugin w) → skips_init h → skips_init (run_sync srv h w).2.
Proof.
  revert w. induction h as [a|e|X c k IH]; intros w Hw Hh; simpl; [done..|].
  destruct (suspends c); [done|]. destruct Hh as [_ Hk].
  apply IH; [by apply perform_Cleared|]. by apply Hk, perform_cleared_answer.
Qed.

Lemma run_sync_quiet {A} (h : Hook A) w : quiet h → quiet (run_sync srv h w).2.
Proof.
  revert w. induction h as [a|e|X c k IH]; intros w Hh; simpl; [done..|].
  destruct (suspends c); [done|]. destruct Hh as [_ Hk]. apply IH, Hk.
Qed.

(** What a request does on arrival, before its first suspension. *)
Lemma arrival req body p :
  let c := build_context (derive req body) in
  let wh := run_sync srv (lifecycle paywallConfig req body) (start p) in
  EvRequiresPayment c ∈ trace wh.1 ∧
  (srv_requiresPayment srv c = false → quiet wh.2).
Proof.
  intros c wh. subst wh. unfold lifecycle, onBeforeHandle. simpl. fold c.
  set (w1 := log (EvRequiresPayment c) (start p)).
  split.
  - match goal with |- context [run_sync srv ?h w1] =>
      destruct (run_sync_trace h w1) as (t & -> & _) end.
    simpl. left.
  - intros ->. simpl. split; [done|]. by intros [[r h]|e].
Qed.

End Flights.

Section Pools.

Variable srv : Server.
Variable paywallConfig : JsValue.

Lemma elem_of_entries (i j : nat) (e : Event) (t : list Event) :
  (i, e) ∈ pair j <$> t ↔ i = j ∧ e ∈ t.
Proof.
  rewrite list_elem_of_fmap. split.
  - intros (e' & Heq & Hin). by simplify_eq.
  - intros [-> Hin]. eauto.
Qed.

Lemma await_in_trace (q : Promise) (t : list Event) : EvAwait q ∈ t → q ∈ awaits t.
Proof. intros Hin. apply list_elem_of_omap. exists (EvAwait q). done. Qed.

Lemma protected_flight_app j j' i :
  protected_flight srv j i → protected_flight srv (j ++ j') i.
Proof. intros (c & Hin & Hc). exists c. split; [|done]. apply elem_of_app. by left. Qed.

Lemma pool_step_cleared (n0 : nat) a s s1 :
  Cleared (closure s) →
  (∀ i h, flights s !! i = Some h → (n0 ≤ i)%nat → skips_init h) →
  pool_step srv paywallConfig a s = Some s1 →
  Cleared (closure s1) ∧
  (∀ i h, flights s1 !! i = Some h → (n0 ≤ i)%nat → skips_init h) ∧
  (∀ i, (i, EvAwait initialize_promise) ∈ journal s1 →
        (i, EvAwait initialize_promise) ∈ journal s ∨ (i < n0)%nat).
Proof.
  intros Hcl Hfl Hstep. destruct a as [req body|i0]; unfold pool_step in Hstep.
  - cbv zeta in Hstep.
    remember (run_sync srv (lifecycle paywallConfig req body) (start (closure s)))
      as wh eqn:Hwh.
    injection Hstep as <-. cbn [closure flights journal]. subst wh. split; [|split].
    + by apply run_sync_Cleared.
    + intros i h Hi Hn. apply lookup_app_Some in Hi as [Hi|[_ Hi]]; [by eapply Hfl|].
      apply list_lookup_singleton_Some in Hi as [_ <-].
      apply run_sync_skips_init; [done|apply skips_init_lifecycle].
    + intros i Hin. apply elem_of_app in Hin as [Hin|Hin]; [by left|].
      apply elem_of_entries in Hin as [_ Hin].
      destruct (run_sync_trace srv (lifecycle paywallConfig req body) (start (closure s)))
        as (t & Ht & Ha).
      rewrite Ht in Hin. simpl in Hin. apply await_in_trace in Hin.
      rewrite Ha in Hin. by apply elem_of_nil in Hin.
  - destruct (flights s !! i0) as [[| |X c k]|] eqn:Hi0; try done.
    cbv zeta in Hstep.
    remember (perform srv c (start (closure s))) as wr eqn:Hwr0.
    remember (run_sync srv (k wr.2) wr.1) as wh eqn:Hwh.
    injection Hstep as <-. cbn [closure flights journal]. subst wh.
    assert (Hwr : Cleared (plugin wr.1)) by (subst wr; by apply perform_Cleared).
    split; [|split].
    + by apply run_sync_Cleared.
    + intros i h Hi Hn. apply list_lookup_insert_Some in Hi as [(-> & <- & _)|[_ Hi]];
        [|by eapply Hfl].
      apply run_sync_skips_init; [done|].
      destruct (Hfl _ _ Hi0 Hn) as [_ Hk]. subst wr. by apply Hk, perform_cleared_answer.
    + intros i Hin. apply elem_of_app in Hin as [Hin|Hin]; [by left|].
      apply elem_of_entries in Hin as [-> Hin].
      destruct (decide (i0 < n0)%nat) as [|Hge]; [by right|]. exfalso.
      destruct (Hfl _ _ Hi0 ltac:(lia)) as [Hc _].
      destruct (perform_trace srv c (start (closure s))) as (t1 & Ht1 & Hn1 & _).
      destruct (run_sync_trace srv (k wr.2) wr.1) as (t2 & Ht2 & Ha2).
      rewrite Ht2 in Hin. subst wr. rewrite Ht1 in Hin. cbn [start trace app] in Hin.
      apply await_in_trace in Hin. rewrite awaits_app, Ha2, app_nil_r in Hin.
      by apply Hn1.
Qed.

Lemma pool_run_cleared (n0 : nat) sched s s' :
  Cleared (closure s) →
  (∀ i h, flights s !! i = Some h → (n0 ≤ i)%nat → skips_init h) →
  pool_run srv paywallConfig sched s = Some s' →
  Cleared (closure s') ∧
  (∀ i, (i, EvAwait initialize_promise) ∈ journal s' →
        (i, EvAwait initialize_promise) ∈ journal s ∨ (i < n0)%nat).
Proof.
  revert s. induction sched as [|a rest IH]; intros s Hcl Hfl Hrun; simpl in Hrun.
  - simplify_eq. split; [done|]. by left.
  - destruct (pool_step srv paywallConfig a s) as [s1|] eqn:Hstep; [|done].
    simpl in Hrun.
    destruct (pool_step_cleared n0 a s s1 Hcl Hfl Hstep) as (Hcl1 & Hfl1 & Hj1).
    destruct (IH s1 Hcl1 Hfl1 Hrun) as [Hcl' Hj']. split; [done|].
    intros i Hin. destruct (Hj' i Hin) as [Hin1|]; [|by right]. by apply Hj1.
Qed.

(** Among concurrent requests: once the closure is cleared it stays
    cleared, and an await of the initialisation can only come from a
    request that was already in flight when it was cleared. *)
Theorem later_arrivals_skip_init sched s s' :
  Cleared (closure s) →
  pool_run srv paywallConfig sched s = Some s' →
  Cleared (closure s') ∧
  ∀ i, (i, EvAwait initialize_promise) ∈ journal s' →
       (i, EvAwait initialize_promise) ∈ journal s ∨ (i < List.length (flights s))%nat.
Proof.
  intros Hcl Hrun. apply (pool_run_cleared (List.length (flights s)) sched s s'); [done| |done].
  intros i h Hi Hn. apply lookup_lt_Some in Hi. lia.
Qed.

Lemma pool_step_protected a s s1 :
  (∀ i h, flights s !! i = Some h → protected_flight srv (journal s) i ∨ quiet h) →
  (∀ i q, (i, EvAwait q) ∈ journal s → protected_flight srv (journal s) i) →
  pool_step srv paywallConfig a s = Some s1 →
  (∀ i h, flights s1 !! i = Some h → protected_flight srv (journal s1) i ∨ quiet h) ∧
  (∀ i q, (i, EvAwait q) ∈ journal s1 → protected_flight srv (journal s1) i).
Proof.
  intros Hfl Hj Hstep. destruct a as [req body|i0]; unfold pool_step in Hstep.
  - cbv zeta in Hstep.
    remember (run_sync srv (lifecycle paywallConfig req body) (start (closure s)))
      as wh eqn:Hwh.
    injection Hstep as <-. cbn [closure flights journal]. subst wh.
    destruct (arrival srv paywallConfig req body (closure s)) as [Hreq Hq].
    cbv zeta in Hreq, Hq.
    split.
    + intros i h Hi. apply lookup_app_Some in Hi as [Hi|[Hlen Hi]].
      * destruct (Hfl _ _ Hi); [left; by apply protected_flight_app|by right].
      * apply list_lookup_singleton_Some in Hi as [Hi <-].
        assert (i = List.length (flights s)) as -> by lia.
        destruct (srv_requiresPayment srv (build_context (derive req body))) eqn:Hp;
          [left|right; by apply Hq].
        exists (build_context (derive req body)). split; [|done].
        apply elem_of_app. right. by apply elem_of_entries.
    + intros i q Hin. apply elem_of_app in Hin as [Hin|Hin];
        [by apply protected_flight_app, (Hj i q)|].
      apply elem_of_entries in Hin as [_ Hin].
      destruct (run_sync_trace srv (lifecycle paywallConfig req body) (start (closure s)))
        as (t & Ht & Ha).
      rewrite Ht in Hin. simpl in Hin. apply await_in_trace in Hin.
      rewrite Ha in Hin. by apply elem_of_nil in Hin.
  - destruct (flights s !! i0) as [[| |X c k]|] eqn:Hi0; try done.
    cbv zeta in Hstep.
    remember (perform srv c (start (closure s))) as wr eqn:Hwr0.
    remember (run_sync srv (k wr.2) wr.1) as wh eqn:Hwh.
    injection Hstep as <-. cbn [closure flights journal]. subst wh.
    split.
    + intros i h Hi. apply list_lookup_insert_Some in Hi as [(-> & <- & _)|[_ Hi]].
      * destruct (Hfl _ _ Hi0) as [Hp|[_ Hk]]; [left; by apply protected_flight_app|].
        right. apply run_sync_quiet, Hk.
      * destruct (Hfl _ _ Hi); [left; by apply protected_flight_app|by right].
    + intros i q Hin. apply elem_of_app in Hin as [Hin|Hin];
        [by apply protected_flight_app, (Hj i q)|].
      apply elem_of_entries in Hin as [-> Hin].
      destruct (Hfl _ _ Hi0) as [Hp|[Hc _]]; [by apply protected_flight_app|]. exfalso.
      destruct (perform_trace srv c (start (closure s))) as (t1 & Ht1 & _ & Ha1).
      destruct (run_sync_trace srv (k wr.2) wr.1) as (t2 & Ht2 & Ha2).
      rewrite Ht2 in Hin. subst wr. rewrite Ht1 in Hin. cbn [start trace app] in Hin.
      apply await_in_trace in Hin. rewrite awaits_app, Ha2, Ha1 in Hin by (by left).
      by apply elem_of_nil in Hin.
Qed.

(** Among concurrent requests: a request that awaits a promise of the
    plugin is one the classifier reported as requiring payment. *)
Theorem only_protected_flights_await sched p s' :
  pool_run srv paywallConfig sched (empty_pool p) = Some s' →
  ∀ i q, (i, EvAwait q) ∈ journal s' → protected_flight srv (journal s') i.
Proof.
  intros Hrun.
  assert (Hgen : ∀ sched s,
    (∀ i h, flights s !! i = Some h → protected_flight srv (journal s) i ∨ quiet h) →
    (∀ i q, (i, EvAwait q) ∈ journal s → protected_flight srv (journal s) i) →
    pool_run srv paywallConfig sched s = Some s' →
    ∀ i q, (i, EvAwait q) ∈ journal s' → protected_flight srv (journal s') i).
  { clear. induction sched as [|a rest IH]; intros s Hfl Hj Hrun; simpl in Hrun.
    - by simplify_eq.
    - destruct (pool_step srv paywallConfig a s) as [s1|] eqn:Hstep; [|done].
      simpl in Hrun. destruct (pool_step_protected a s s1 Hfl Hj Hstep) as [Hfl1 Hj1].
      by apply (IH s1). }
  apply (Hgen sched (empty_pool p)); [| |done].
  - intros i h Hi. done.
  - intros i q Hin. by apply elem_of_nil in Hin.
Qed.

End Pools.

(** Two requests arrive before the initialisation resolves, a third after
    the first of them has resumed: the first two await the shared promise,
    the third does not. *)
Example two_first_requests_then_a_third :
  (λ s, (closure s, who_awaited_init (journal s)))
    <$> pool_run paying_server JsUndefined
          [Arrive paid_request JsUndefined; Arrive paid_request JsUndefined;
           Resume 0%nat; Arrive paid_request JsUndefined;
           Resume 1%nat; Resume 2%nat; Resume 0%nat; Resume 0%nat; Resume 0%nat]
          (empty_pool fresh_plugin)
  = Some ({| initPromise := None; bazaarPromise := None |}, [0%nat; 1%nat]).
Proof. vm_compute. reflexivity. Qed.

(** * The scenarios of the specification, evaluated *)

(** Numbers as [JSON.stringify] and [String] write them. *)
Example Number_toString_samples :
  Number_toString 72 = "72" ∧
  Number_toString (-404) = "-404" ∧
  Number_toString (2 ^ 53 + 1) = "9007199254740992" ∧
  Number_toString (2 ^ 60) = "1152921504606847000" ∧
  Number_toString (10 ^ 21 - 1) = "1e+21" ∧
  Number_toString (2 ^ 70) = "1.1805916207174113e+21" ∧
  Number_toString (2 ^ 1024) = "Infinity" ∧
  JSON_stringify (JsArray [JsNumber (10 ^ 21); JsNumber (2 ^ 1024)]) = Some "[1e+21,null]".
Proof. vm_compute. repeat split. Qed.

(** Settlement success: the handler's value goes out with the receipt
    header. *)
Example scenario_settlement_success :
  (exec paying_server (lifecycle JsUndefined paid_request JsUndefined)
     (start fresh_plugin)).2
  = inl (Handled weather {[ "payment-response" := "r1" ]}).
Proof. reflexivity. Qed.

(** Settlement failure: the fixed 402 reply goes out instead. *)
Example scenario_settlement_failure :
  (exec (createMockHTTPServer mock_verified
           (inl (settle_failure "insufficient funds")) weather)
     (lifecycle JsUndefined paid_request JsUndefined) (start fresh_plugin)).2
  = inl (Replaced (settlement_failed_response "insufficient funds") ∅).
Proof. reflexivity. Qed.

(** The 402 replaces the handler's result, not [ctx.set.headers]: a
    header the handler set goes out with it. *)
Example scenario_settlement_failure_set_headers :
  (exec {| srv_requiresPayment := λ _, true;
           srv_initialize := inl tt;
           srv_processHTTPRequest := λ _ _, inl mock_verified;
           srv_processSettlement := λ _ _ _ _, inl (settle_failure "insufficient funds");
           srv_route_handler := λ _, inl (weather, {[ "x-report-id" := "r-17" ]}) |}
     (lifecycle JsUndefined paid_request JsUndefined) (start fresh_plugin)).2
  = inl (Replaced (settlement_failed_response "insufficient funds")
           {[ "x-report-id" := "r-17" ]}).
Proof. reflexivity. Qed.

Example scenario_settlement_failure_body :
  settlement_failed_json "insufficient funds" =
  "{" +:+ String dquote "error" +:+ String dquote ":"
      +:+ String dquote "Settlement failed" +:+ String dquote ","
      +:+ String dquote "details" +:+ String dquote ":"
      +:+ String dquote "insufficient funds" +:+ String dquote "}".
Proof. reflexivity. Qed.

(** The handler rejects with 404: its result goes out, nothing is settled. *)
Example scenario_handler_rejects :
  let out := exec (createMockHTTPServer mock_verified
                     (inl (settle_success receipt_headers)) not_found)
              (lifecycle JsUndefined paid_request JsUndefined) (start fresh_plugin) in
  out.2 = inl (Handled not_found ∅) ∧ settle_calls (trace out.1) = [].
Proof. split; reflexivity. Qed.

(** Missing credential: a 402 with the server's headers; the handler does
    not run. *)
Example scenario_missing_credential :
  let out := exec (createMockHTTPServer (payment_error custom_headers_error)
                     (inl (settle_success receipt_headers)) weather)
              (lifecycle JsUndefined (request_with ∅) JsUndefined) (start fresh_plugin) in
  ∃ resp, out.2 = inl (Replaced resp ∅) ∧ resp_status resp = 402 ∧
    Headers_get (resp_headers resp) "content-type" = Some "application/json" ∧
    Headers_get (resp_headers resp) "payment-required" = Some "encoded-req" ∧
    settle_calls (trace out.1) = [] ∧
    omap (λ e, match e with EvRouteHandler c => Some c | _ => None end) (trace out.1) = [].
Proof. eexists. repeat split; reflexivity. Qed.

(** * Further properties of the code *)

(** ** Query parameters *)

Lemma getAll_nil params name :
  URLSearchParams_getAll params name = [] ↔ name ∉ URLSearchParams_keys params.
Proof.
  unfold URLSearchParams_getAll, URLSearchParams_keys.
  induction params as [|[k v] params IH].
  - split; [intros _; apply not_elem_of_nil|done].
  - rewrite filter_cons, fmap_cons, not_elem_of_cons. cbn [fst].
    destruct (decide (k = name)) as [->|Hne].
    + rewrite fmap_cons. split; [done|]. by intros [? _].
    + rewrite IH. split; [by split|by intros [_ ?]].
Qed.

Lemma assign_loop_lookup {V} (f : string → V) (keys : list string) (o : gmap string V) name :
  name ≠ "__proto__" →
  foldl (λ result key, Object_assign_prop key (f key) result) o keys !! name
  = if decide (name ∈ keys) then Some (f name) else o !! name.
Proof.
  intros Hn. revert o. induction keys as [|k keys IH]; intros o; cbn [foldl].
  - destruct (decide (name ∈ [])) as [H|_]; [by apply elem_of_nil in H|done].
  - rewrite IH. unfold Object_assign_prop.
    destruct (decide (name ∈ keys)) as [Hin|Hnin].
    + destruct (decide (name ∈ k :: keys)) as [_|H]; [done|].
      exfalso. apply H. by right.
    + destruct (decide (k = name)) as [->|Hne].
      * destruct (decide (name ∈ name :: keys)) as [_|H]; [|exfalso; apply H; left].
        destruct (decide (name = "__proto__")); [done|]. apply lookup_insert_eq.
      * destruct (decide (name ∈ k :: keys)) as [H|_].
        { apply elem_of_cons in H as [->|H]; done. }
        destruct (decide (k = "__proto__")); [done|]. by apply lookup_insert_ne.
Qed.

Lemma assign_loop_proto {V} (f : string → V) (keys : list string) (o : gmap string V) :
  foldl (λ result key, Object_assign_prop key (f key) result) o keys !! "__proto__"
  = o !! "__proto__".
Proof.
  revert o. induction keys as [|k keys IH]; intros o; simpl; [done|].
  rewrite IH. unfold Object_assign_prop. destruct (decide (k = "__proto__")); [done|].
  by apply lookup_insert_ne.
Qed.

(** Under every name but [__proto__], the record of [getQueryParams] holds
    what [getQueryParam] answers for that name, and has no entry where
    [getQueryParam] answers [undefined]. *)
Theorem getQueryParams_agrees_with_getQueryParam (params : URLSearchParams) (name : string) :
  name ≠ "__proto__" →
  getQueryParams params !! name = getQueryParam params name.
Proof.
  intros Hn. unfold getQueryParams, getQueryParam.
  rewrite (assign_loop_lookup (λ key, one_or_all (URLSearchParams_getAll params key))) by done.
  destruct (decide (name ∈ URLSearchParams_keys params)) as [Hin|Hnin].
  - destruct (URLSearchParams_getAll params name) eqn:E; [|done].
    apply getAll_nil in E. done.
  - apply getAll_nil in Hnin. rewrite Hnin. apply lookup_empty.
Qed.

(** A parameter named [__proto__] never becomes an entry of the record,
    while [getQueryParam] does answer for it. *)
Theorem getQueryParams_drops_proto (params : URLSearchParams) :
  getQueryParams params !! "__proto__" = None ∧
  (("__proto__" ∈ URLSearchParams_keys params) → is_Some (getQueryParam params "__proto__")).
Proof.
  split.
  - unfold getQueryParams.
    rewrite (assign_loop_proto (λ key, one_or_all (URLSearchParams_getAll params key))).
    apply lookup_empty.
  - intros Hin. unfold getQueryParam.
    destruct (URLSearchParams_getAll params "__proto__") eqn:E; [|eauto].
    apply getAll_nil in E. done.
Qed.

(** Every entry of the record is the name of a parameter of the query
    string, with its value as a string when the name occurs once and the
    array of its values, in order, when it occurs several times. *)
Theorem getQueryParams_entries (params : URLSearchParams) (name : string) (qv : QueryValue) :
  getQueryParams params !! name = Some qv →
  name ≠ "__proto__" ∧
  name ∈ URLSearchParams_keys params ∧
  match qv with
  | QueryString v => URLSearchParams_getAll params name = [v]
  | QueryArray vs => vs = URLSearchParams_getAll params name ∧ (2 ≤ List.length vs)%nat
  end.
Proof.
  intros Hqv. unfold getQueryParams in Hqv.
  assert (Hn : name ≠ "__proto__").
  { intros ->.
    rewrite (assign_loop_proto (λ key, one_or_all (URLSearchParams_getAll params key)))
      in Hqv.
    by rewrite lookup_empty in Hqv. }
  split; [done|].
  rewrite (assign_loop_lookup (λ key, one_or_all (URLSearchParams_getAll params key)))
    in Hqv by done.
  destruct (decide (name ∈ URLSearchParams_keys params)) as [Hin|Hnin];
    [|by rewrite lookup_empty in Hqv].
  split; [done|]. injection Hqv as <-.
  destruct (URLSearchParams_getAll params name) as [|v [|v' vs]] eqn:E; simpl.
  - by apply getAll_nil in E.
  - done.
  - split; [done|lia].
Qed.

(** ** The body and the content type *)

Lemma append_String (c : ascii) (s t : string) : String c s +:+ t = String c (s +:+ t).
Proof. reflexivity. Qed.

Lemma append_Empty (t : string) : "" +:+ t = t.
Proof. reflexivity. Qed.

Lemma prefix_spec (sub s : string) :
  String.prefix sub s = true ↔ ∃ post, s = sub +:+ post.
Proof.
  revert s. induction sub as [|c sub IH]; intros s.
  - split; [intros _; by exists s|intros _; by destruct s].
  - destruct s as [|c' s]; cbn [String.prefix].
    + split; [done|]. intros [post Hp]. by rewrite append_String in Hp.
    + destruct (Ascii.ascii_dec c c') as [->|Hne].
      * rewrite IH. split; intros [post Hp]; exists post.
        { by rewrite append_String, Hp. }
        rewrite append_String in Hp. by simplify_eq.
      * split; [done|]. intros [post Hp]. rewrite append_String in Hp. by simplify_eq.
Qed.

Lemma String_includes_spec (sub s : string) :
  String_includes sub s = true ↔ ∃ pre post, s = pre +:+ sub +:+ post.
Proof.
  induction s as [|c s IH]; cbn [String_includes].
  - rewrite orb_false_r, prefix_spec. split.
    + intros [post Hp]. by exists "", post.
    + intros (pre & post & Hp). destruct pre as [|c pre]; [eauto|].
      by rewrite append_String in Hp.
  - rewrite orb_true_iff, prefix_spec, IH. split.
    + intros [[post Hp]|(pre & post & Hp)].
      * by exists "", post.
      * exists (String c pre), post. by rewrite append_String, Hp.
    + intros (pre & post & Hp). destruct pre as [|c' pre].
      * left. eauto.
      * right. rewrite append_String in Hp. simplify_eq. eauto.
Qed.

(** [getBody] surfaces the parsed body exactly when the request's content
    type contains [application/json], as written; without a content type,
    or with any other, it answers [undefined]. *)
Theorem getBody_only_for_json (req : Request) (body : JsValue) :
  (Headers_get (req_headers req) "content-type" = None →
     Adapter.getBody (Adapter.new req body) = JsUndefined)
  ∧ (∀ ct pre post,
       Headers_get (req_headers req) "content-type" = Some ct →
       ct = pre +:+ "application/json" +:+ post →
       Adapter.getBody (Adapter.new req body) = body)
  ∧ (∀ ct,
       Headers_get (req_headers req) "content-type" = Some ct →
       (∀ pre post, ct ≠ pre +:+ "application/json" +:+ post) →
       Adapter.getBody (Adapter.new req body) = JsUndefined).
Proof.
  unfold Adapter.getBody, Adapter.new. cbn [parsedBody].
  split; [|split].
  - by intros ->.
  - intros ct pre post -> ->. unfold nullish_or, default, from_option, id.
    rewrite (proj2 (String_includes_spec _ _)); eauto.
  - intros ct -> Hno. unfold nullish_or, default, from_option, id.
    destruct (String_includes "application/json" ct) eqn:E; [|done].
    apply String_includes_spec in E as (pre & post & ->). by destruct (Hno pre post).
Qed.

(** ** One request, from [derive] to the outgoing response *)

Section Lifecycle.
Variable srv : Server.
Variable paywallConfig : JsValue.

Lemma handler_calls_app (t1 t2 : list Event) :
  handler_calls (t1 ++ t2) = handler_calls t1 ++ handler_calls t2.
Proof. apply omap_app. Qed.

#[local] Ltac close_trace :=
  unfold log; simpl; rewrite <- ?app_assoc; simpl; (split; [reflexivity|by split]).

(** What [onBeforeHandle] returns and which calls it makes, whatever the
    closure holds and however the calls complete. *)
Lemma onBeforeHandle_outcome ctx w :
  let c := build_context ctx in
  let out := exec srv (onBeforeHandle paywallConfig ctx) w in
  (∃ t, trace out.1 = trace w ++ t ∧ settle_calls t = [] ∧ handler_calls t = []) ∧
  match out.2 with
  | inl (ctx', ret) =>
      (srv_requiresPayment srv c = false ∧ ctx' = ctx ∧ ret = None) ∨
      (srv_requiresPayment srv c = true ∧
       match srv_processHTTPRequest srv c paywallConfig with
       | inl no_payment_required => ctx' = ctx ∧ ret = None
       | inl (payment_error i) => ctx' = ctx ∧ ret = Some (payment_error_response i)
       | inl (payment_verified payload requirements exts) =>
           ctx' = with_x402PaymentContext
                    (Some {| paymentPayload := payload;
                             paymentRequirements := requirements;
                             declaredExtensions := exts;
                             context := c |}) ctx ∧
           ret = None
       | inr _ => False
       end)
  | inr e => srv_requiresPayment srv c = true
  end.
Proof.
  intros c out. subst c out. unfold onBeforeHandle. simpl.
  destruct (srv_requiresPayment srv (build_context ctx)) eqn:Hreq; simpl.
  2:{ split; [eexists [_]; close_trace|]. left. by repeat split. }
  destruct w as [[ip bp] t0].
  assert (Hs : ∀ q, settle_promise srv q = inl tt ∨ ∃ e, settle_promise srv q = inr e).
  { intros q. destruct (settle_promise srv q) as [[]|e]; eauto. }
  destruct ip as [q1|]; simpl.
  - destruct (Hs q1) as [->|[e ->]]; simpl.
    + destruct bp as [q2|]; simpl.
      * destruct (Hs q2) as [->|[e ->]]; simpl.
        -- destruct (srv_processHTTPRequest srv _ _) as [[| |]|] eqn:E; simpl;
             (split; [eexists [_; _; _; _]; close_trace|]);
             try (right; split; [done|]; simpl; by repeat split). done.
        -- split; [eexists [_; _; _]; close_trace|done].
      * destruct (srv_processHTTPRequest srv _ _) as [[| |]|] eqn:E; simpl;
          (split; [eexists [_; _; _]; close_trace|]);
          try (right; split; [done|]; simpl; by repeat split). done.
    + split; [eexists [_; _]; close_trace|done].
  - destruct bp as [q2|]; simpl.
    + destruct (Hs q2) as [->|[e ->]]; simpl.
      * destruct (srv_processHTTPRequest srv _ _) as [[| |]|] eqn:E; simpl;
          (split; [eexists [_; _; _]; close_trace|]);
          try (right; split; [done|]; simpl; by repeat split). done.
      * split; [eexists [_; _]; close_trace|done].
    + destruct (srv_processHTTPRequest srv _ _) as [[| |]|] eqn:E; simpl;
        (split; [eexists [_; _]; close_trace|]);
        try (right; split; [done|]; simpl; by repeat split). done.
Qed.

Lemma after_beforeHandle_outcome ctx w :
  exec srv (after_beforeHandle (ctx, None)) w =
  match srv_route_handler srv ctx with
  | inr e => (log (EvRouteHandler ctx) w, inr e)
  | inl (r, h) =>
      match exec srv (onAfterHandle (with_handler_output r h ctx))
              (log (EvRouteHandler ctx) w) with
      | (w2, inl (ctx2, Some resp)) => (w2, inl (Replaced resp (set_headers ctx2)))
      | (w2, inl (ctx2, None)) => (w2, inl (Handled (response ctx2) (set_headers ctx2)))
      | (w2, inr e) => (w2, inr e)
      end
  end.
Proof.
  unfold after_beforeHandle. cbn [snd fst]. run_bind. simpl.
  destruct (srv_route_handler srv ctx) as [[r h]|e]; simpl; [|done].
  run_bind.
  destruct (exec srv (onAfterHandle _) _) as [w2 [[ctx2 [resp|]]|e]]; done.
Qed.

(** With a verified payment in the context, [onAfterHandle] does one of
    three things. *)
Lemma onAfterHandle_populated ctx pc w :
  x402PaymentContext ctx = Some pc →
  ((∃ s, handler_status (response ctx) = Some s ∧ 400 ≤ s) ∧
   exec srv (onAfterHandle ctx) w = (w, inl (ctx, None))) ∨
  (status_below_400 (response ctx) ∧ ¬ deliverable (response ctx) ∧
   ∃ e, exec srv (onAfterHandle ctx) w = (w, inr e)) ∨
  (status_below_400 (response ctx) ∧
   ∃ b, serialise_responseBody (response ctx) = Ret b ∧
     exec srv (onAfterHandle ctx) w =
     let tc := {| tc_request := context pc; tc_responseBody := b |} in
     let w1 := log (EvProcessSettlement (paymentPayload pc) (paymentRequirements pc)
                      (declaredExtensions pc) tc) w in
     match srv_processSettlement srv (paymentPayload pc) (paymentRequirements pc)
             (declaredExtensions pc) tc with
     | inl (settle_failure reason) =>
         (w1, inl (ctx, Some (settlement_failed_response reason)))
     | inl (settle_success h) =>
         (w1, inl (with_set_headers (merge_set_headers h (set_headers ctx)) ctx, None))
     | inr err =>
         (log (EvConsoleError "[x402-elysia] Settlement error:" err) w1,
          inl (ctx, Some (settlement_failed_response (error_message err))))
     end).
Proof.
  intros Hpc.
  destruct (Response_status_ge_400 (response ctx)) eqn:H1.
  { left. split; [apply checks_at_least_400; by left|]. apply onAfterHandle_skips. eauto. }
  destruct (code_ge_400 (response ctx)) eqn:H2.
  { left. split; [apply checks_at_least_400; by right|]. apply onAfterHandle_skips. eauto. }
  assert (Hst : status_below_400 (response ctx)) by (by apply checks_below_400).
  right.
  destruct (serialise_pure srv (response ctx) w) as [(b & Hb & _)|(e & He & Hnd)].
  - right. split; [done|]. exists b. split; [done|]. by apply onAfterHandle_settles.
  - left. split; [done|]. split; [done|]. exists e.
    unfold onAfterHandle. rewrite Hpc, H1, H2. run_bind. by rewrite He.
Qed.

(** On a protected route the handler's result goes out only when access
    was granted without payment, or the handler itself reported an error
    status, or the payment was settled. *)
Theorem handler_result_needs_grant_or_settlement req body p r h :
  let c := build_context (derive req body) in
  (exec srv (lifecycle paywallConfig req body) (start p)).2 = inl (Handled r h) →
  srv_requiresPayment srv c = false ∨
  srv_processHTTPRequest srv c paywallConfig = inl no_payment_required ∨
  ∃ payload requirements exts,
    srv_processHTTPRequest srv c paywallConfig
      = inl (payment_verified payload requirements exts) ∧
    ((∃ s, handler_status r = Some s ∧ 400 ≤ s) ∨
     ∃ b hs,
       serialise_responseBody r = Ret b ∧
       srv_processSettlement srv payload requirements exts
         {| tc_request := c; tc_responseBody := b |} = inl (settle_success hs)).
Proof.
  intros c Hout. unfold lifecycle in Hout. unfold mbind, Hook_mbind in Hout.
  rewrite exec_Hook_bind in Hout.
  pose proof (onBeforeHandle_outcome (derive req body) (start p)) as [_ Hb].
  cbv zeta in Hb. fold c in Hb.
  destruct (exec srv (onBeforeHandle paywallConfig (derive req body)) (start p))
    as [w1 [[ctx1 ret]|e]]; [|done].
  cbn [snd] in Hb.
  destruct Hb as [(Hreq & -> & ->)|[Hreq Hb]]; [by left|]. right.
  destruct (srv_processHTTPRequest srv c paywallConfig) as [[|i|payload requirements exts]|e];
    [by left| | |done].
  { destruct Hb as [-> ->]. done. }
  destruct Hb as [-> ->]. right. exists payload, requirements, exts. split; [done|].
  rewrite after_beforeHandle_outcome in Hout.
  set (ctx1 := with_x402PaymentContext _ _) in Hout.
  destruct (srv_route_handler srv ctx1) as [[r0 h0]|e]; [|done].
  set (pc := {| paymentPayload := payload; paymentRequirements := requirements;
                declaredExtensions := exts; context := c |}) in *.
  destruct (onAfterHandle_populated (with_handler_output r0 h0 ctx1) pc
              (log (EvRouteHandler ctx1) w1) eq_refl)
    as [[Hge He]|[(_ & _ & e & He)|(_ & b & Hser & He)]]; rewrite He in Hout.
  - cbn in Hout. simplify_eq. by left.
  - done.
  - cbn [response with_handler_output] in Hser. cbv zeta in Hout.
    destruct (srv_processSettlement srv _ _ _ _) as [[hs|reason]|err] eqn:Hs;
      cbn in Hout; simplify_eq.
    right. exists b, hs. done.
Qed.

(** A settlement call is only ever made for the payment that verification
    returned for this request, after the handler answered below 400, and
    with the serialisation of the handler's result. *)
Theorem settlement_only_after_verification req body p args :
  let ctx := derive req body in
  let c := build_context ctx in
  args ∈ settle_calls (trace (exec srv (lifecycle paywallConfig req body) (start p)).1) →
  ∃ payload requirements exts r h b,
    args = (payload, requirements, exts, {| tc_request := c; tc_responseBody := b |}) ∧
    srv_requiresPayment srv c = true ∧
    srv_processHTTPRequest srv c paywallConfig
      = inl (payment_verified payload requirements exts) ∧
    srv_route_handler srv
      (with_x402PaymentContext
         (Some {| paymentPayload := payload; paymentRequirements := requirements;
                  declaredExtensions := exts; context := c |}) ctx) = inl (r, h) ∧
    status_below_400 r ∧
    serialise_responseBody r = Ret b.
Proof.
  intros ctx c Hin. unfold lifecycle in Hin. unfold mbind, Hook_mbind in Hin.
  rewrite exec_Hook_bind in Hin. fold ctx in Hin.
  pose proof (onBeforeHandle_outcome ctx (start p)) as [(t & Ht & Hts & _) Hb].
  cbv zeta in Hb. fold c in Hb. cbn [start trace app] in Ht.
  destruct (exec srv (onBeforeHandle paywallConfig ctx) (start p))
    as [w1 [[ctx1 ret]|e]]; cbn [fst snd] in *.
  2:{ rewrite Ht, Hts in Hin. by apply elem_of_nil in Hin. }
  assert (Hnone : ∀ ctx', x402PaymentContext ctx' = None →
            args ∉ settle_calls (trace (exec srv (after_beforeHandle (ctx', None)) w1).1)).
  { intros ctx' Hx. rewrite after_beforeHandle_outcome.
    destruct (srv_route_handler srv ctx') as [[r0 h0]|e]; cbn.
    - rewrite onAfterHandle_skips by (left; done). cbn.
      rewrite settle_calls_app, Ht, Hts. apply not_elem_of_nil.
    - rewrite settle_calls_app, Ht, Hts. apply not_elem_of_nil. }
  destruct Hb as [(Hreq & -> & ->)|[Hreq Hb]]; [by destruct (Hnone ctx eq_refl)|].
  destruct (srv_processHTTPRequest srv c paywallConfig) as [[|i|payload requirements exts]|e];
    [| | |done].
  { destruct Hb as [-> ->]. by destruct (Hnone ctx eq_refl). }
  { destruct Hb as [-> ->]. cbn in Hin. rewrite Ht, Hts in Hin. by apply elem_of_nil in Hin. }
  destruct Hb as [-> ->].
  rewrite after_beforeHandle_outcome in Hin.
  set (ctx1 := with_x402PaymentContext _ _) in *.
  destruct (srv_route_handler srv ctx1) as [[r0 h0]|e] eqn:Hh.
  2:{ cbn in Hin. rewrite settle_calls_app, Ht, Hts in Hin. by apply elem_of_nil in Hin. }
  set (pc := {| paymentPayload := payload; paymentRequirements := requirements;
                declaredExtensions := exts; context := c |}) in *.
  destruct (onAfterHandle_populated (with_handler_output r0 h0 ctx1) pc
              (log (EvRouteHandler ctx1) w1) eq_refl)
    as [[Hge He]|[(_ & _ & e & He)|(Hst & b & Hser & He)]]; rewrite He in Hin.
  - cbn in Hin. rewrite settle_calls_app, Ht, Hts in Hin. by apply elem_of_nil in Hin.
  - cbn in Hin. rewrite settle_calls_app, Ht, Hts in Hin. by apply elem_of_nil in Hin.
  - cbn [response with_handler_output] in Hser, Hst. cbv zeta in Hin.
    exists payload, requirements, exts, r0, h0, b.
    assert (args = (payload, requirements, exts,
                    {| tc_request := c; tc_responseBody := b |})) as ->.
    { destruct (srv_processSettlement srv _ _ _ _) as [[hs|reason]|err];
        cbn in Hin; rewrite ?settle_calls_app, Ht, Hts in Hin; cbn in Hin;
        by apply list_elem_of_singleton in Hin. }
    done.
Qed.

Lemma onAfterHandle_no_handler ctx w :
  ∃ t, trace (exec srv (onAfterHandle ctx) w).1 = trace w ++ t ∧ handler_calls t = [].
Proof.
  assert (Hnil : ∀ r : HookResult + Thrown,
            ∃ t, trace (w, r).1 = trace w ++ t ∧ handler_calls t = []).
  { intros r. exists []. by rewrite app_nil_r. }
  destruct (x402PaymentContext ctx) as [pc|] eqn:Hpc.
  2:{ rewrite onAfterHandle_skips by (by left). apply Hnil. }
  destruct (onAfterHandle_populated ctx pc w Hpc)
    as [[_ ->]|[(_ & _ & e & ->)|(_ & b & _ & ->)]]; [apply Hnil..|].
  cbv zeta. destruct (srv_processSettlement srv _ _ _ _) as [[hs|reason]|err]; cbn.
  - by eexists [_].
  - by eexists [_].
  - rewrite <- app_assoc. by eexists [_; _].
Qed.

(** When [onBeforeHandle] lets a protected request through, every promise
    the closure still held has resolved and verification has been asked,
    in this order. *)
Lemma onBeforeHandle_lets_through ctx w ctx1 :
  let c := build_context ctx in
  let out := exec srv (onBeforeHandle paywallConfig ctx) w in
  srv_requiresPayment srv c = true →
  out.2 = inl (ctx1, None) →
  (∀ q, initPromise (plugin w) = Some q ∨ bazaarPromise (plugin w) = Some q →
        settle_promise srv q = inl tt) ∧
  trace out.1 = trace w ++ [EvRequiresPayment c] ++ pending (initPromise (plugin w))
                  ++ pending (bazaarPromise (plugin w))
                  ++ [EvProcessHTTPRequest c paywallConfig].
Proof.
  intros c out Hreq. subst out. unfold onBeforeHandle. simpl. fold c. rewrite Hreq. simpl.
  destruct w as [[ip bp] t0].
  assert (Hs : ∀ q, settle_promise srv q = inl tt ∨ ∃ e, settle_promise srv q = inr e).
  { intros q. destruct (settle_promise srv q) as [[]|e]; eauto. }
  destruct ip as [q1|]; simpl.
  - destruct (Hs q1) as [H1|[e H1]]; rewrite H1; simpl; [|done].
    destruct bp as [q2|]; simpl.
    + destruct (Hs q2) as [H2|[e H2]]; rewrite H2; simpl; [|done].
      intros Hout. split.
      * intros q [Hq|Hq]; by simplify_eq.
      * destruct (srv_processHTTPRequest srv _ _) as [[| |]|]; simpl in *;
          unfold log; simpl; by rewrite <- ?app_assoc.
    + intros Hout. split.
      * intros q [Hq|Hq]; by simplify_eq.
      * destruct (srv_processHTTPRequest srv _ _) as [[| |]|]; simpl in *;
          unfold log; simpl; by rewrite <- ?app_assoc.
  - destruct bp as [q2|]; simpl.
    + destruct (Hs q2) as [H2|[e H2]]; rewrite H2; simpl; [|done].
      intros Hout. split.
      * intros q [Hq|Hq]; by simplify_eq.
      * destruct (srv_processHTTPRequest srv _ _) as [[| |]|]; simpl in *;
          unfold log; simpl; by rewrite <- ?app_assoc.
    + intros Hout. split.
      * intros q [Hq|Hq]; by simplify_eq.
      * destruct (srv_processHTTPRequest srv _ _) as [[| |]|]; simpl in *;
          unfold log; simpl; by rewrite <- ?app_assoc.
Qed.

(** The route handler runs at most once, and only for a request that is
    unprotected, or that is protected and was let through: then every
    promise the closure still held (the initialisation, the bazaar import)
    has resolved, verification has been asked right before the handler,
    and it answered that no payment is required or that the payment is
    verified.  The handler finds the verified payment in its context
    exactly in the last case.  So the handler does not run after a failed
    initialisation, a verification that throws, or a payment error. *)
Theorem handler_runs_only_when_allowed req body p ctx' :
  let ctx := derive req body in
  let c := build_context ctx in
  let t := trace (exec srv (lifecycle paywallConfig req body) (start p)).1 in
  ctx' ∈ handler_calls t →
  handler_calls t = [ctx'] ∧
  ((srv_requiresPayment srv c = false ∧ ctx' = ctx) ∨
   (srv_requiresPayment srv c = true ∧
    (∀ q, initPromise p = Some q ∨ bazaarPromise p = Some q →
          settle_promise srv q = inl tt) ∧
    (∃ t', t = [EvRequiresPayment c] ++ pending (initPromise p)
                 ++ pending (bazaarPromise p)
                 ++ [EvProcessHTTPRequest c paywallConfig; EvRouteHandler ctx'] ++ t') ∧
    ((srv_processHTTPRequest srv c paywallConfig = inl no_payment_required ∧ ctx' = ctx) ∨
     ∃ payload requirements exts,
       srv_processHTTPRequest srv c paywallConfig
         = inl (payment_verified payload requirements exts) ∧
       ctx' = with_x402PaymentContext
                (Some {| paymentPayload := payload; paymentRequirements := requirements;
                         declaredExtensions := exts; context := c |}) ctx))).
Proof.
  intros ctx c t. subst t. unfold lifecycle. unfold mbind, Hook_mbind.
  rewrite exec_Hook_bind. fold ctx.
  pose proof (onBeforeHandle_outcome ctx (start p)) as [(t & Ht & _ & Hth) Hb].
  pose proof (onBeforeHandle_lets_through ctx (start p)) as Hlet.
  cbv zeta in Hb, Hlet. fold c in Hb, Hlet. cbn [start trace app plugin] in Ht, Hlet.
  destruct (exec srv (onBeforeHandle paywallConfig ctx) (start p))
    as [w1 [[ctx1 ret]|e]]; cbn [fst snd] in *.
  2:{ rewrite Ht, Hth. intros Hin. by apply elem_of_nil in Hin. }
  assert (Hrun : ∀ ctx0,
            handler_calls (trace (exec srv (after_beforeHandle (ctx0, None)) w1).1) = [ctx0] ∧
            ∃ t', trace (exec srv (after_beforeHandle (ctx0, None)) w1).1
                  = trace w1 ++ [EvRouteHandler ctx0] ++ t').
  { intros ctx0. rewrite after_beforeHandle_outcome.
    destruct (srv_route_handler srv ctx0) as [[r0 h0]|e].
    - destruct (onAfterHandle_no_handler (with_handler_output r0 h0 ctx0)
                  (log (EvRouteHandler ctx0) w1)) as (t2 & Ht2 & Hh2).
      destruct (exec srv (onAfterHandle _) _) as [w2 [[ctx2 [resp|]]|e]];
        cbn [fst snd] in *; rewrite Ht2; cbn [log trace];
        (split; [by rewrite !handler_calls_app, Ht, Hth, Hh2|]);
        exists t2; by rewrite <- app_assoc.
    - cbn. split; [by rewrite handler_calls_app, Ht, Hth|]. exists []. done. }
  destruct Hb as [(Hreq & -> & ->)|[Hreq Hb]].
  { destruct (Hrun ctx) as [-> _]. intros ->%list_elem_of_singleton.
    split; [done|]. by left. }
  destruct (srv_processHTTPRequest srv c paywallConfig) as [[|i|payload requirements exts]|e];
    [| | |done].
  - destruct Hb as [-> ->]. destruct (Hrun ctx) as [Hh [t' Ht']]. rewrite Hh.
    intros ->%list_elem_of_singleton.
    destruct (Hlet ctx Hreq eq_refl) as [Hres Htr].
    split; [done|]. right. split; [done|]. split; [done|]. split.
    + exists t'. rewrite Ht', Htr. simpl. rewrite <- ?app_assoc. simpl.
      by rewrite <- ?app_assoc.
    + by left.
  - destruct Hb as [-> ->]. cbn. rewrite Ht, Hth. intros Hin. by apply elem_of_nil in Hin.
  - destruct Hb as [-> ->].
    set (ctx1 := with_x402PaymentContext _ ctx) in *.
    destruct (Hrun ctx1) as [Hh [t' Ht']]. rewrite Hh.
    intros ->%list_elem_of_singleton.
    destruct (Hlet ctx1 Hreq eq_refl) as [Hres Htr].
    split; [done|]. right. split; [done|]. split; [done|]. split.
    + exists t'. rewrite Ht', Htr. simpl. rewrite <- ?app_assoc. simpl.
      by rewrite <- ?app_assoc.
    + right. by exists payload, requirements, exts.
Qed.

(** [onAfterHandle] throws exactly when a payment was verified, the
    handler's result shows no status of 400 or more, and the serialisation
    of that result, which stands before the [try], throws: the hook then
    throws what the serialisation threw and has called nothing, so nothing
    is settled.  What the settlement call throws never leaves the hook.
    A [Response] whose body was already read is such a result. *)
Theorem onAfterHandle_throws_before_settling ctx w :
  (∀ e, (exec srv (onAfterHandle ctx) w).2 = inr e ↔
        is_Some (x402PaymentContext ctx) ∧ status_below_400 (response ctx) ∧
        serialise_responseBody (response ctx) = Throw e) ∧
  (∀ e, (exec srv (onAfterHandle ctx) w).2 = inr e →
        (exec srv (onAfterHandle ctx) w).1 = w) ∧
  (∀ resp, response ctx = JsResponse resp → resp_bodyUsed resp = true →
           serialise_responseBody (response ctx) = Throw (TypeError "Body already used")).
Proof.
  assert (Hmain : ∀ e, (exec srv (onAfterHandle ctx) w).2 = inr e →
            (is_Some (x402PaymentContext ctx) ∧ status_below_400 (response ctx) ∧
             serialise_responseBody (response ctx) = Throw e) ∧
            (exec srv (onAfterHandle ctx) w).1 = w).
  { intros e He.
    destruct (x402PaymentContext ctx) as [pc|] eqn:Hpc.
    2:{ rewrite onAfterHandle_skips in He by (by left). done. }
    destruct (Response_status_ge_400 (response ctx)) eqn:H1.
    { rewrite onAfterHandle_skips in He by eauto. done. }
    destruct (code_ge_400 (response ctx)) eqn:H2.
    { rewrite onAfterHandle_skips in He by eauto. done. }
    assert (Hst : status_below_400 (response ctx)) by (by apply checks_below_400).
    destruct (serialise_returns_or_throws (response ctx)) as [[b Hb]|[e' He']].
    - rewrite (onAfterHandle_settles srv ctx pc b w Hpc Hst Hb) in He. cbv zeta in He.
      destruct (srv_processSettlement srv _ _ _ _) as [[hs|reason]|err]; done.
    - rewrite (onAfterHandle_throws srv ctx pc e' w Hpc Hst He') in He |- *.
      cbn in He. simplify_eq. split; [|done]. split; [eauto|]. done. }
  split; [|split].
  - intros e. split; [by intros [? _]%Hmain|].
    intros ([pc Hpc] & Hst & He).
    by rewrite (onAfterHandle_throws srv ctx pc e w Hpc Hst He).
  - by intros e [_ ?]%Hmain.
  - intros resp -> Hused. simpl. unfold Response_clone. by rewrite Hused.
Qed.

(** Verification is asked at most once per request, with the request's own
    context and the plugin's paywall configuration; with the
    initialisation resolving, exactly once for a protected route and never
    for an unprotected one. *)
Theorem verification_called_once req body p :
  let c := build_context (derive req body) in
  let t := trace (exec srv (lifecycle paywallConfig req body) (start p)).1 in
  (verify_calls t = [] ∨ verify_calls t = [(c, paywallConfig)]) ∧
  (srv_requiresPayment srv c = false → verify_calls t = []) ∧
  (srv_requiresPayment srv c = true → srv_initialize srv = inl tt →
   verify_calls t = [(c, paywallConfig)]).
Proof.
  intros c t. subst t. unfold lifecycle. unfold mbind, Hook_mbind.
  rewrite exec_Hook_bind.
  set (ctx := derive req body) in *.
  assert (Hafter : ∀ before w,
            verify_calls (trace (exec srv (after_beforeHandle before) w).1)
            = verify_calls (trace w)).
  { intros before w. destruct (after_beforeHandle_quiet srv before w) as (t & -> & _ & Hv).
    cbn. by rewrite verify_calls_app, Hv, app_nil_r. }
  destruct (srv_requiresPayment srv c) eqn:Hreq.
  - assert (Hcases :
      (∃ w1 r, exec srv (onBeforeHandle paywallConfig ctx) (start p) = (w1, r) ∧
               verify_calls (trace w1) = [(c, paywallConfig)]) ∨
      (srv_initialize srv ≠ inl tt ∧
       ∃ w1 e, exec srv (onBeforeHandle paywallConfig ctx) (start p) = (w1, inr e) ∧
               verify_calls (trace w1) = [])).
    { unfold onBeforeHandle. simpl. fold c. rewrite Hreq. simpl.
      destruct p as [ip bp].
      assert (Hs : ∀ q, settle_promise srv q = inl tt ∨
                        (srv_initialize srv ≠ inl tt ∧ ∃ e, settle_promise srv q = inr e)).
      { intros [|]; simpl; [|by left].
        destruct (srv_initialize srv) as [[]|e]; [by left|right; eauto]. }
      destruct ip as [q1|]; simpl.
      - destruct (Hs q1) as [->|[Hne [e ->]]]; simpl; [|right; eauto].
        destruct bp as [q2|]; simpl.
        + destruct (Hs q2) as [->|[Hne [e ->]]]; simpl; [|right; eauto].
          left. destruct (srv_processHTTPRequest srv _ _) as [[| |]|]; simpl; eauto.
        + left. destruct (srv_processHTTPRequest srv _ _) as [[| |]|]; simpl; eauto.
      - destruct bp as [q2|]; simpl.
        + destruct (Hs q2) as [->|[Hne [e ->]]]; simpl; [|right; eauto].
          left. destruct (srv_processHTTPRequest srv _ _) as [[| |]|]; simpl; eauto.
        + left. destruct (srv_processHTTPRequest srv _ _) as [[| |]|]; simpl; eauto. }
    destruct Hcases as [(w1 & r & -> & Hv)|(Hne & w1 & e & -> & Hv)].
    + assert (verify_calls
                (trace (match r with
                        | inl a => exec srv (after_beforeHandle a) w1
                        | inr e => (w1, inr e)
                        end).1) = [(c, paywallConfig)]) as ->.
      { destruct r as [a|e]; [by rewrite Hafter|done]. }
      split; [by right|]. split; done.
    + cbn [fst]. rewrite Hv. split; [by left|]. split; done.
  - rewrite onBeforeHandle_unprotected by done. rewrite Hafter. cbn.
    split; [by left|]. split; done.
Qed.

(** The initialisation rejects while [initPromise] is still set. *)
Lemma lifecycle_init_failed req body p e :
  let c := build_context (derive req body) in
  srv_initialize srv = inr e →
  initPromise p = Some initialize_promise →
  srv_requiresPayment srv c = true →
  exec srv (lifecycle paywallConfig req body) (start p)
  = ({| plugin := p; trace := [EvRequiresPayment c; EvAwait initialize_promise] |}, inr e).
Proof.
  intros c Hinit Hp Hreq. unfold lifecycle. unfold mbind, Hook_mbind.
  rewrite exec_Hook_bind.
  assert (exec srv (onBeforeHandle paywallConfig (derive req body)) (start p)
          = ({| plugin := p; trace := [EvRequiresPayment c; EvAwait initialize_promise] |},
             inr e)) as ->; [|done].
  unfold onBeforeHandle. simpl. fold c. rewrite Hreq. simpl.
  destruct p as [ip bp]. simpl in Hp. subst ip. simpl. rewrite Hinit. reflexivity.
Qed.

Lemma lifecycle_unprotected req body p :
  let ctx := derive req body in
  let c := build_context ctx in
  srv_requiresPayment srv c = false →
  exec srv (lifecycle paywallConfig req body) (start p) =
  let w := {| plugin := p; trace := [EvRequiresPayment c; EvRouteHandler ctx] |} in
  match srv_route_handler srv ctx with
  | inl (r, h) => (w, inl (Handled r h))
  | inr e => (w, inr e)
  end.
Proof.
  intros ctx c Hreq. unfold lifecycle. unfold mbind, Hook_mbind.
  rewrite exec_Hook_bind. fold ctx. rewrite onBeforeHandle_unprotected by done.
  rewrite after_beforeHandle_outcome.
  destruct (srv_route_handler srv ctx) as [[r h]|e]; [|done].
  rewrite onAfterHandle_skips by (by left). done.
Qed.

(** What one request does to the closure: it awaits only promises the
    closure holds, and each slot is left as it was or cleared. *)
Lemma lifecycle_closure req body p :
  let w := (exec srv (lifecycle paywallConfig req body) (start p)).1 in
  (∀ q, q ∈ awaits (trace w) → initPromise p = Some q ∨ bazaarPromise p = Some q) ∧
  (initPromise (plugin w) = None ∨ initPromise (plugin w) = initPromise p) ∧
  (bazaarPromise (plugin w) = None ∨ bazaarPromise (plugin w) = bazaarPromise p).
Proof.
  intros w. subst w. unfold lifecycle. unfold mbind, Hook_mbind.
  rewrite exec_Hook_bind.
  set (ctx := derive req body).
  assert (Hb : ∃ w1 r, exec srv (onBeforeHandle paywallConfig ctx) (start p) = (w1, r) ∧
    (∀ q, q ∈ awaits (trace w1) → initPromise p = Some q ∨ bazaarPromise p = Some q) ∧
    (initPromise (plugin w1) = None ∨ initPromise (plugin w1) = initPromise p) ∧
    (bazaarPromise (plugin w1) = None ∨ bazaarPromise (plugin w1) = bazaarPromise p)).
  { unfold onBeforeHandle. simpl.
    destruct (srv_requiresPayment srv (build_context ctx)); simpl.
    2:{ do 2 eexists. split; [done|]. simpl. split; [|by split; right].
        intros q Hq. by apply elem_of_nil in Hq. }
    destruct p as [ip bp].
    assert (Hs : ∀ q, settle_promise srv q = inl tt ∨ ∃ e, settle_promise srv q = inr e).
    { intros q. destruct (settle_promise srv q) as [[]|e]; eauto. }
    assert (H1 : ∀ q1 q : Promise, q ∈ [q1] → Some q1 = Some q ∨ bp = Some q).
    { intros q1 q ->%list_elem_of_singleton. by left. }
    assert (H2 : ∀ q2 q : Promise, q ∈ [q2] → ip = Some q ∨ Some q2 = Some q).
    { intros q2 q ->%list_elem_of_singleton. by right. }
    assert (H12 : ∀ q1 q2 q : Promise, q ∈ [q1; q2] → Some q1 = Some q ∨ Some q2 = Some q).
    { intros q1 q2 q [-> | ->%list_elem_of_singleton]%elem_of_cons; [by left|by right]. }
    assert (H0 : ∀ q : Promise, q ∈ [] → ip = Some q ∨ bp = Some q).
    { intros q Hq. by apply elem_of_nil in Hq. }
    destruct ip as [q1|]; simpl.
    - destruct (Hs q1) as [->|[e ->]]; simpl.
      + destruct bp as [q2|]; simpl.
        * destruct (Hs q2) as [->|[e ->]]; simpl.
          -- destruct (srv_processHTTPRequest srv _ _) as [[| |]|]; simpl;
               do 2 eexists; (split; [done|]); simpl; (split; [apply H12|split; by left]).
          -- do 2 eexists. split; [done|]. simpl. split; [apply H12|split; [by left|by right]].
        * destruct (srv_processHTTPRequest srv _ _) as [[| |]|]; simpl;
            do 2 eexists; (split; [done|]); simpl; (split; [apply H1|split; by left]).
      + do 2 eexists. split; [done|]. simpl. split; [apply H1|split; by right].
    - destruct bp as [q2|]; simpl.
      + destruct (Hs q2) as [->|[e ->]]; simpl.
        * destruct (srv_processHTTPRequest srv _ _) as [[| |]|]; simpl;
            do 2 eexists; (split; [done|]); simpl; (split; [apply H2|split; by left]).
        * do 2 eexists. split; [done|]. simpl. split; [apply H2|split; by right].
      + destruct (srv_processHTTPRequest srv _ _) as [[| |]|]; simpl;
          do 2 eexists; (split; [done|]); simpl; (split; [apply H0|split; by left]). }
  destruct Hb as (w1 & r & -> & Ha & Hi & Hz).
  destruct r as [before|e]; [|done].
  destruct (after_beforeHandle_quiet srv before w1) as (t & -> & Hat & _).
  cbn [plugin trace]. rewrite awaits_app, Hat, app_nil_r. done.
Qed.

End Lifecycle.

(** ** Requests in sequence *)

Lemma serve_cons' srv paywallConfig rq rest p :
  serve srv paywallConfig (rq :: rest) p =
  let w := (exec srv (lifecycle paywallConfig rq.1 rq.2) (start p)).1 in
  (trace w, plugin w) :: serve srv paywallConfig rest (plugin w).
Proof. reflexivity. Qed.

(** Requests served one after the other await only what the plugin started
    at construction: the initialisation only under
    [syncFacilitatorOnStart], the bazaar import only when a route declares
    the extension and the server does not have it yet. *)
Theorem plugin_awaits_what_it_started srv paywallConfig routes hasExtension_bazaar
    syncFacilitatorOnStart requests t p' q :
  (t, p') ∈ serve srv paywallConfig requests
              (paymentMiddlewareFromHTTPServer routes hasExtension_bazaar
                 syncFacilitatorOnStart) →
  q ∈ awaits t →
  (q = initialize_promise ∧ syncFacilitatorOnStart = true) ∨
  (q = bazaar_promise ∧ checkIfBazaarNeeded routes = true ∧ hasExtension_bazaar = false).
Proof.
  set (P := λ p : Plugin,
    (initPromise p = None ∨
     (initPromise p = Some initialize_promise ∧ syncFacilitatorOnStart = true)) ∧
    (bazaarPromise p = None ∨
     (bazaarPromise p = Some bazaar_promise ∧
      checkIfBazaarNeeded routes = true ∧ hasExtension_bazaar = false))).
  assert (H0 : P (paymentMiddlewareFromHTTPServer routes hasExtension_bazaar
                    syncFacilitatorOnStart)).
  { unfold P, paymentMiddlewareFromHTTPServer. cbn [initPromise bazaarPromise]. split.
    - destruct syncFacilitatorOnStart; [by right|by left].
    - destruct (checkIfBazaarNeeded routes), hasExtension_bazaar; cbn;
        [by left|by right|by left|by left]. }
  revert H0. generalize (paymentMiddlewareFromHTTPServer routes hasExtension_bazaar
                           syncFacilitatorOnStart).
  induction requests as [|rq rest IH]; intros p HP Hin Hq.
  - by apply elem_of_nil in Hin.
  - rewrite serve_cons' in Hin. cbv zeta in Hin.
    destruct (lifecycle_closure srv paywallConfig rq.1 rq.2 p) as (Ha & Hi & Hz).
    cbv zeta in Ha, Hi, Hz.
    apply elem_of_cons in Hin as [Heq|Hin].
    + injection Heq as -> ->. destruct HP as [HPi HPz].
      destruct (Ha q Hq) as [Hs|Hs].
      * destruct HPi as [Hn|[Hsome ?]]; [congruence|]. left. split; [congruence|done].
      * destruct HPz as [Hn|[Hsome ?]]; [congruence|]. right. split; [congruence|done].
    + eapply IH; [|exact Hin|exact Hq].
      destruct HP as [HPi HPz]. split.
      * destruct Hi as [->| ->]; [by left|done].
      * destruct Hz as [->| ->]; [by left|done].
Qed.

(** A failed initialisation is never forgotten.  With [initPromise] set
    and [initialize()] rejected, every protected request of a sequence
    awaits the promise and rethrows its error, without verification,
    handler or settlement; unprotected requests are served; and the
    closure stays as it was, so no later request fares better. *)
Theorem failed_initialize_rejects_every_protected_request
    srv paywallConfig requests p e :
  srv_initialize srv = inr e →
  initPromise p = Some initialize_promise →
  Forall2
    (λ rq tp,
       let ctx := derive rq.1 rq.2 in
       let c := build_context ctx in
       tp.2 = p ∧
       if srv_requiresPayment srv c
       then tp.1 = [EvRequiresPayment c; EvAwait initialize_promise] ∧
            (exec srv (lifecycle paywallConfig rq.1 rq.2) (start p)).2 = inr e
       else tp.1 = [EvRequiresPayment c; EvRouteHandler ctx])
    requests (serve srv paywallConfig requests p).
Proof.
  intros Hinit Hp. induction requests as [|rq rest IH]; [constructor|].
  rewrite serve_cons'. cbv zeta.
  destruct (srv_requiresPayment srv (build_context (derive rq.1 rq.2))) eqn:Hreq.
  - rewrite (lifecycle_init_failed srv paywallConfig rq.1 rq.2 p e Hinit Hp Hreq).
    cbn [fst snd plugin trace]. constructor; [|exact IH].
    cbn [fst snd]. rewrite Hreq. split; [done|]. split; [done|].
    by rewrite (lifecycle_init_failed srv paywallConfig rq.1 rq.2 p e Hinit Hp Hreq).
  - rewrite (lifecycle_unprotected srv paywallConfig rq.1 rq.2 p Hreq). cbv zeta.
    assert (∀ (w : World) (x : (JsValue * gmap string string) + Thrown),
              (match x with
               | inl (r, h) => (w, inl (Handled r h))
               | inr e0 => (w, inr e0)
               end : World * (Outgoing + Thrown)).1 = w) as Hw.
    { intros w [[r h]|e0]; done. }
    rewrite Hw. cbn [plugin trace]. constructor; [|exact IH].
    cbn [fst snd]. rewrite Hreq. done.
Qed.

(** Access granted without payment (a hook of the resource server answered
    [no-payment-required]): the handler runs with an empty payment holder
    and its outcome is the request's outcome; nothing is settled. *)
Theorem granted_access_passes_through srv paywallConfig req body p :
  let ctx := derive req body in
  let c := build_context ctx in
  srv_requiresPayment srv c = true →
  srv_initialize srv = inl tt →
  srv_processHTTPRequest srv c paywallConfig = inl no_payment_required →
  let out := exec srv (lifecycle paywallConfig req body) (start p) in
  out.2 = match srv_route_handler srv ctx with
          | inl (r, h) => inl (Handled r h)
          | inr e => inr e
          end ∧
  handler_calls (trace out.1) = [ctx] ∧
  settle_calls (trace out.1) = [].
Proof.
  intros ctx c Hreq Hinit Hgrant out. subst out. unfold lifecycle.
  unfold mbind, Hook_mbind. rewrite exec_Hook_bind. fold ctx.
  rewrite (onBeforeHandle_protected srv paywallConfig ctx (start p) Hreq Hinit).
  cbv zeta. fold c. rewrite Hgrant. rewrite after_beforeHandle_outcome.
  assert (Hh : ∀ o, handler_calls (pending o) = []) by (by intros []).
  assert (Hs : ∀ o, settle_calls (pending o) = []) by (by intros []).
  destruct (srv_route_handler srv ctx) as [[r h]|e].
  - rewrite onAfterHandle_skips by (by left). cbn [fst snd log trace start plugin].
    rewrite !handler_calls_app, !settle_calls_app, !Hh, !Hs. done.
  - cbn [fst snd log trace start plugin].
    rewrite !handler_calls_app, !settle_calls_app, !Hh, !Hs. done.
Qed.

(** ** The properties above at sample inputs *)

Lemma getQueryParams_agrees_with_getQueryParam_witness :
  getQueryParams sample_query !! "tag" = getQueryParam sample_query "tag" ∧
  getQueryParam sample_query "tag" = Some (QueryArray ["a"; "b"]).
Proof.
  split; [|reflexivity].
  apply (getQueryParams_agrees_with_getQueryParam sample_query "tag").
  intros H. discriminate H.
Defined.

Lemma getQueryParams_entries_witness :
  "q" ≠ "__proto__" ∧
  "q" ∈ URLSearchParams_keys sample_query ∧
  URLSearchParams_getAll sample_query "q" = ["x"].
Proof.
  apply (getQueryParams_entries sample_query "q" (QueryString "x")).
  reflexivity.
Defined.

Lemma handler_result_needs_grant_or_settlement_witness :
  let c := build_context (derive paid_request JsUndefined) in
  srv_requiresPayment paying_server c = false ∨
  srv_processHTTPRequest paying_server c JsUndefined = inl no_payment_required ∨
  ∃ payload requirements exts,
    srv_processHTTPRequest paying_server c JsUndefined
      = inl (payment_verified payload requirements exts) ∧
    ((∃ s, handler_status weather = Some s ∧ 400 ≤ s) ∨
     ∃ b hs,
       serialise_responseBody weather = Ret b ∧
       srv_processSettlement paying_server payload requirements exts
         {| tc_request := c; tc_responseBody := b |} = inl (settle_success hs)).
Proof.
  apply (handler_result_needs_grant_or_settlement paying_server JsUndefined
           paid_request JsUndefined fresh_plugin weather {[ "payment-response" := "r1" ]}).
  reflexivity.
Defined.

Lemma settlement_only_after_verification_witness :
  let ctx := derive paid_request JsUndefined in
  let c := build_context ctx in
  ∃ payload requirements exts r h b,
    mock_settle_args
      = (payload, requirements, exts, {| tc_request := c; tc_responseBody := b |}) ∧
    srv_requiresPayment paying_server c = true ∧
    srv_processHTTPRequest paying_server c JsUndefined
      = inl (payment_verified payload requirements exts) ∧
    srv_route_handler paying_server
      (with_x402PaymentContext
         (Some {| paymentPayload := payload; paymentRequirements := requirements;
                  declaredExtensions := exts; context := c |}) ctx) = inl (r, h) ∧
    status_below_400 r ∧
    serialise_responseBody r = Ret b.
Proof.
  apply (settlement_only_after_verification paying_server JsUndefined
           paid_request JsUndefined fresh_plugin mock_settle_args).
  assert (settle_calls
            (trace (exec paying_server (lifecycle JsUndefined paid_request JsUndefined)
                      (start fresh_plugin)).1) = [mock_settle_args]) as -> by reflexivity.
  left.
Defined.

Lemma handler_runs_only_when_allowed_witness :
  let ctx := derive paid_request JsUndefined in
  let c := build_context ctx in
  let ctx' := with_x402PaymentContext (Some mock_paymentCtx) ctx in
  let t := trace (exec paying_server (lifecycle JsUndefined paid_request JsUndefined)
                    (start fresh_plugin)).1 in
  handler_calls t = [ctx'] ∧
  ((srv_requiresPayment paying_server c = false ∧ ctx' = ctx) ∨
   (srv_requiresPayment paying_server c = true ∧
    (∀ q, initPromise fresh_plugin = Some q ∨ bazaarPromise fresh_plugin = Some q →
          settle_promise paying_server q = inl tt) ∧
    (∃ t', t = [EvRequiresPayment c] ++ pending (initPromise fresh_plugin)
                 ++ pending (bazaarPromise fresh_plugin)
                 ++ [EvProcessHTTPRequest c JsUndefined; EvRouteHandler ctx'] ++ t') ∧
    ((srv_processHTTPRequest paying_server c JsUndefined = inl no_payment_required ∧
      ctx' = ctx) ∨
     ∃ payload requirements exts,
       srv_processHTTPRequest paying_server c JsUndefined
         = inl (payment_verified payload requirements exts) ∧
       ctx' = with_x402PaymentContext
                (Some {| paymentPayload := payload; paymentRequirements := requirements;
                         declaredExtensions := exts; context := c |}) ctx))).
Proof.
  apply (handler_runs_only_when_allowed paying_server JsUndefined
           paid_request JsUndefined fresh_plugin
           (with_x402PaymentContext (Some mock_paymentCtx)
              (derive paid_request JsUndefined))).
  assert (handler_calls
            (trace (exec paying_server (lifecycle JsUndefined paid_request JsUndefined)
                      (start fresh_plugin)).1)
          = [with_x402PaymentContext (Some mock_paymentCtx)
               (derive paid_request JsUndefined)]) as -> by reflexivity.
  left.
Defined.

Lemma failed_initialize_rejects_every_protected_request_witness :
  let requests := [(paid_request, JsUndefined); (health_request, JsUndefined);
                   (paid_request, JsUndefined)] in
  Forall2
    (λ rq tp,
       let ctx := derive rq.1 rq.2 in
       let c := build_context ctx in
       tp.2 = fresh_plugin ∧
       if srv_requiresPayment unsynced_server c
       then tp.1 = [EvRequiresPayment c; EvAwait initialize_promise] ∧
            (exec unsynced_server (lifecycle JsUndefined rq.1 rq.2) (start fresh_plugin)).2
            = inr facilitator_down
       else tp.1 = [EvRequiresPayment c; EvRouteHandler ctx])
    requests (serve unsynced_server JsUndefined requests fresh_plugin).
Proof.
  apply (failed_initialize_rejects_every_protected_request unsynced_server JsUndefined
           [(paid_request, JsUndefined); (health_request, JsUndefined);
            (paid_request, JsUndefined)] fresh_plugin facilitator_down).
  - reflexivity.
  - reflexivity.
Defined.

Lemma plugin_awaits_what_it_started_witness :
  (initialize_promise = initialize_promise ∧ true = true) ∨
  (initialize_promise = bazaar_promise ∧
   checkIfBazaarNeeded (MultiRoute []) = true ∧ true = false).
Proof.
  apply (plugin_awaits_what_it_started paying_server JsUndefined (MultiRoute []) true true
           [(paid_request, JsUndefined)]
           (trace (exec paying_server (lifecycle JsUndefined paid_request JsUndefined)
                     (start fresh_plugin)).1)
           (plugin (exec paying_server (lifecycle JsUndefined paid_request JsUndefined)
                      (start fresh_plugin)).1)
           initialize_promise).
  - left.
  - assert (awaits (trace (exec paying_server
                             (lifecycle JsUndefined paid_request JsUndefined)
                             (start fresh_plugin)).1) = [initialize_promise]) as ->
      by reflexivity.
    left.
Defined.

Lemma later_arrivals_skip_init_witness :
  let s := empty_pool (mkPlugin None (Some bazaar_promise)) in
  ∃ s', pool_run paying_server JsUndefined
          [Arrive paid_request JsUndefined; Arrive paid_request JsUndefined;
           Resume 0%nat; Resume 1%nat] s = Some s' ∧
        Cleared (closure s') ∧
        ∀ i, (i, EvAwait initialize_promise) ∈ journal s' →
             (i, EvAwait initialize_promise) ∈ journal s ∨ (i < List.length (flights s))%nat.
Proof.
  eexists. split; [reflexivity|].
  apply (later_arrivals_skip_init paying_server JsUndefined
           [Arrive paid_request JsUndefined; Arrive paid_request JsUndefined;
            Resume 0%nat; Resume 1%nat]
           (empty_pool (mkPlugin None (Some bazaar_promise)))).
  - split; [reflexivity|]. intros H. discriminate H.
  - reflexivity.
Defined.

Lemma only_protected_flights_await_witness :
  ∃ s', pool_run unsynced_server JsUndefined
          [Arrive health_request JsUndefined; Arrive paid_request JsUndefined;
           Resume 0%nat; Resume 1%nat] (empty_pool fresh_plugin) = Some s' ∧
        (1%nat, EvAwait initialize_promise) ∈ journal s' ∧
        ∀ i q, (i, EvAwait q) ∈ journal s' → protected_flight unsynced_server (journal s') i.
Proof.
  eexists. split; [reflexivity|]. split.
  - vm_compute. do 3 right. left.
  - apply (only_protected_flights_await unsynced_server JsUndefined
             [Arrive health_request JsUndefined; Arrive paid_request JsUndefined;
              Resume 0%nat; Resume 1%nat] fresh_plugin).
    reflexivity.
Defined.

Lemma granted_access_passes_through_witness :
  let srv := createMockHTTPServer no_payment_required
               (inl (settle_success receipt_headers)) weather in
  let out := exec srv (lifecycle JsUndefined (request_with ∅) JsUndefined)
               (start fresh_plugin) in
  out.2 = inl (Handled weather ∅) ∧
  handler_calls (trace out.1) = [derive (request_with ∅) JsUndefined] ∧
  settle_calls (trace out.1) = [].
Proof.
  apply (granted_access_passes_through
           (createMockHTTPServer no_payment_required
              (inl (settle_success receipt_headers)) weather)
           JsUndefined (request_with ∅) JsUndefined fresh_plugin); reflexivity.
Defined.
